(** * hwoa-rang-math: ray construction and ray/primitive intersection

    A shallow embedding of the picking routines of the math module
    ([projectMouseToWorldSpace], [intersectRayWithPlane],
    [intersectRayWithTriangle], [intersectRayWithQuad],
    [intersectRayWithAABB]) together with the gl-matrix primitives they call,
    and of the scalar helpers of the same module ([clamp], [mapNumberRange],
    [isPowerOf2], [normalizeNumber], [triangleWave], [deg2Rad], [rad2Deg]).

    The routines are written once, over an interface [Number] that lists the
    operations the source applies to JavaScript numbers.  Two instances are
    given:
    - [float64], IEEE-754 binary64 through Rocq's primitive floats: this is
      what the program computes with (signed zeros, infinities and NaN
      included), together with the rounding to single precision of every
      number written into a vector or matrix that gl-matrix allocates;
    - [exact], the real numbers: the same program text read in exact
      arithmetic, used where the specification speaks up to rounding.
      Division by zero has no meaning there, and the statements over the
      reals assume the divisors they need to be non-zero.

    gl-matrix is an external library (version 3, ES module exports); its
    functions are written here from their definitions.  Vectors are tuples
    of numbers.  gl-matrix allocates its vectors and matrices as
    [Float32Array] ([create], [fromValues]) and the module never changes
    that setting, so every vector that the routines allocate holds
    single-precision numbers: a write into it rounds the number to single
    precision, and a read gives the rounded number back as a binary64
    number.  The arithmetic between the reads and the writes is binary64.
    The vectors that a caller passes in are read as they are: their
    components are arbitrary binary64 numbers. *)

From Stdlib Require Import ZArith Bool List Lia.
From Stdlib Require Import Floats.
From Stdlib Require Import Reals Lra.
Import ListNotations.

Set Implicit Arguments.
#[local] Set Warnings "-inexact-float".

(** ** The operations of a JavaScript number that the module uses *)

Class Number (num : Type) : Type := {
  lit : Z -> num;                  (* an integer literal of the source *)
  nadd : num -> num -> num;        (* a + b *)
  nsub : num -> num -> num;        (* a - b *)
  nmul : num -> num -> num;        (* a * b *)
  ndiv : num -> num -> num;        (* a / b *)
  nlt : num -> num -> bool;        (* a < b *)
  nle : num -> num -> bool;        (* a <= b *)
  nmin : num -> num -> num;        (* Math.min(a, b) *)
  nmax : num -> num -> num;        (* Math.max(a, b) *)
  nsqrt : num -> num;              (* Math.sqrt(a) *)
  truthy : num -> bool;            (* ToBoolean(a), as in [!a] and [if (a)] *)
  nstore : num -> num              (* what [out[i] = a] leaves in out[i] when
                                      out is a Float32Array: Math.fround(a) *)
}.

Declare Scope js_scope.
Delimit Scope js_scope with js.
Infix "+" := nadd : js_scope.
Infix "-" := nsub : js_scope.
Infix "*" := nmul : js_scope.
Infix "/" := ndiv : js_scope.
Notation "a <? b" := (nlt a b) (at level 70, no associativity) : js_scope.
Notation "a <=? b" := (nle a b) (at level 70, no associativity) : js_scope.
Notation "a >? b" := (nlt b a) (at level 70, no associativity) : js_scope.
Notation "a >=? b" := (nle b a) (at level 70, no associativity) : js_scope.

(** ** gl-matrix primitives

    Modelled from the spec: gl-matrix is an external collaborator and its
    code is not part of the sources.  The specification names the operations
    that are used (dot, cross, normalize, add, subtract, scale, copy, matrix
    inversion, matrix-vector transform); they are written below as
    gl-matrix 3 defines them.

    Every gl-matrix function takes the receiving vector [out] first, writes
    the result into it and returns it.  The functions below return the new
    contents of [out].  Each component of the result is computed from values
    read before that component is written, so a call whose [out] is also an
    operand behaves as the functional reading does.

    Every [out] that the routines pass comes from [create] or [fromValues],
    hence is a [Float32Array]: each write [out[i] = a] is modelled as
    [nstore a].  A new [Float32Array] holds zeros, and the numbers 0, 1 and
    -1 that [create] and the routines write themselves are stored
    unchanged. *)

(** Modelled from the spec: the two-component vector of gl-matrix. *)
Module vec2.
Record t (num : Type) : Type := Make { c0 : num; c1 : num }.
Arguments Make {num} _ _.
End vec2.

(** Modelled from the spec: the [vec3] functions of gl-matrix that the
    routines call. *)
Module vec3.
Record t (num : Type) : Type := Make { c0 : num; c1 : num; c2 : num }.
Arguments Make {num} _ _ _.

Section Ops.
Context {num : Type} `{Number num}.
Local Open Scope js_scope.

Definition create : t num := Make (lit 0) (lit 0) (lit 0).

Definition fromValues (x y z : num) : t num :=
  Make (nstore x) (nstore y) (nstore z).

(* a[i] for i = 0, 1, 2 *)
Definition get (a : t num) (i : nat) : num :=
  match i with 0%nat => c0 a | 1%nat => c1 a | _ => c2 a end.

Definition copy (out a : t num) : t num :=
  Make (nstore (c0 a)) (nstore (c1 a)) (nstore (c2 a)).

Definition add (out a b : t num) : t num :=
  Make (nstore (c0 a + c0 b)) (nstore (c1 a + c1 b)) (nstore (c2 a + c2 b)).

Definition subtract (out a b : t num) : t num :=
  Make (nstore (c0 a - c0 b)) (nstore (c1 a - c1 b)) (nstore (c2 a - c2 b)).

Definition sub := subtract.

Definition scale (out a : t num) (b : num) : t num :=
  Make (nstore (c0 a * b)) (nstore (c1 a * b)) (nstore (c2 a * b)).

Definition dot (a b : t num) : num :=
  c0 a * c0 b + c1 a * c1 b + c2 a * c2 b.

Definition cross (out a b : t num) : t num :=
  let ax := c0 a in let ay := c1 a in let az := c2 a in
  let bx := c0 b in let by_ := c1 b in let bz := c2 b in
  Make (nstore (ay * bz - az * by_)) (nstore (az * bx - ax * bz))
       (nstore (ax * by_ - ay * bx)).

Definition normalize (out a : t num) : t num :=
  let x := c0 a in let y := c1 a in let z := c2 a in
  let len := x * x + y * y + z * z in
  let len := if len >? lit 0 then lit 1 / nsqrt len else len in
  Make (nstore (c0 a * len)) (nstore (c1 a * len)) (nstore (c2 a * len)).
End Ops.
End vec3.

(** Modelled from the spec: [mat4.create] and [mat4.invert] of gl-matrix;
    matrices are stored by columns in sixteen components. *)
Module mat4.
Record t (num : Type) : Type := Make {
  m0 : num; m1 : num; m2 : num; m3 : num;
  m4 : num; m5 : num; m6 : num; m7 : num;
  m8 : num; m9 : num; m10 : num; m11 : num;
  m12 : num; m13 : num; m14 : num; m15 : num
}.
Arguments Make {num} _ _ _ _ _ _ _ _ _ _ _ _ _ _ _ _.

Section Ops.
Context {num : Type} `{Number num}.
Local Open Scope js_scope.

(* A new matrix is the identity. *)
Definition create : t num :=
  Make (lit 1) (lit 0) (lit 0) (lit 0)
       (lit 0) (lit 1) (lit 0) (lit 0)
       (lit 0) (lit 0) (lit 1) (lit 0)
       (lit 0) (lit 0) (lit 0) (lit 1).

Definition determinant (a : t num) : num :=
  let a00 := m0 a in let a01 := m1 a in let a02 := m2 a in let a03 := m3 a in
  let a10 := m4 a in let a11 := m5 a in let a12 := m6 a in let a13 := m7 a in
  let a20 := m8 a in let a21 := m9 a in let a22 := m10 a in let a23 := m11 a in
  let a30 := m12 a in let a31 := m13 a in let a32 := m14 a in let a33 := m15 a in
  let b00 := a00 * a11 - a01 * a10 in
  let b01 := a00 * a12 - a02 * a10 in
  let b02 := a00 * a13 - a03 * a10 in
  let b03 := a01 * a12 - a02 * a11 in
  let b04 := a01 * a13 - a03 * a11 in
  let b05 := a02 * a13 - a03 * a12 in
  let b06 := a20 * a31 - a21 * a30 in
  let b07 := a20 * a32 - a22 * a30 in
  let b08 := a20 * a33 - a23 * a30 in
  let b09 := a21 * a32 - a22 * a31 in
  let b10 := a21 * a33 - a23 * a31 in
  let b11 := a22 * a33 - a23 * a32 in
  b00 * b11 - b01 * b10 + b02 * b09 + b03 * b08 - b04 * b07 + b05 * b06.

(* mat4.invert returns null and leaves [out] as it was when the
   determinant is falsy (zero or NaN). *)
Definition invert (out a : t num) : t num :=
  let a00 := m0 a in let a01 := m1 a in let a02 := m2 a in let a03 := m3 a in
  let a10 := m4 a in let a11 := m5 a in let a12 := m6 a in let a13 := m7 a in
  let a20 := m8 a in let a21 := m9 a in let a22 := m10 a in let a23 := m11 a in
  let a30 := m12 a in let a31 := m13 a in let a32 := m14 a in let a33 := m15 a in
  let b00 := a00 * a11 - a01 * a10 in
  let b01 := a00 * a12 - a02 * a10 in
  let b02 := a00 * a13 - a03 * a10 in
  let b03 := a01 * a12 - a02 * a11 in
  let b04 := a01 * a13 - a03 * a11 in
  let b05 := a02 * a13 - a03 * a12 in
  let b06 := a20 * a31 - a21 * a30 in
  let b07 := a20 * a32 - a22 * a30 in
  let b08 := a20 * a33 - a23 * a30 in
  let b09 := a21 * a32 - a22 * a31 in
  let b10 := a21 * a33 - a23 * a31 in
  let b11 := a22 * a33 - a23 * a32 in
  let det :=
    b00 * b11 - b01 * b10 + b02 * b09 + b03 * b08 - b04 * b07 + b05 * b06 in
  if negb (truthy det) then out
  else
    let det := lit 1 / det in
    Make (nstore ((a11 * b11 - a12 * b10 + a13 * b09) * det))
         (nstore ((a02 * b10 - a01 * b11 - a03 * b09) * det))
         (nstore ((a31 * b05 - a32 * b04 + a33 * b03) * det))
         (nstore ((a22 * b04 - a21 * b05 - a23 * b03) * det))
         (nstore ((a12 * b08 - a10 * b11 - a13 * b07) * det))
         (nstore ((a00 * b11 - a02 * b08 + a03 * b07) * det))
         (nstore ((a32 * b02 - a30 * b05 - a33 * b01) * det))
         (nstore ((a20 * b05 - a22 * b02 + a23 * b01) * det))
         (nstore ((a10 * b10 - a11 * b08 + a13 * b06) * det))
         (nstore ((a01 * b08 - a00 * b10 - a03 * b06) * det))
         (nstore ((a30 * b04 - a31 * b02 + a33 * b00) * det))
         (nstore ((a21 * b02 - a20 * b04 - a23 * b00) * det))
         (nstore ((a11 * b07 - a10 * b09 - a12 * b06) * det))
         (nstore ((a00 * b09 - a01 * b07 + a02 * b06) * det))
         (nstore ((a31 * b01 - a30 * b03 - a32 * b00) * det))
         (nstore ((a20 * b03 - a21 * b01 + a22 * b00) * det)).
End Ops.
End mat4.

(** Modelled from the spec: the [vec4] functions of gl-matrix that the
    routines call. *)
Module vec4.
Record t (num : Type) : Type := Make { c0 : num; c1 : num; c2 : num; c3 : num }.
Arguments Make {num} _ _ _ _.

Section Ops.
Context {num : Type} `{Number num}.
Local Open Scope js_scope.

Definition create : t num := Make (lit 0) (lit 0) (lit 0) (lit 0).

Definition fromValues (x y z w : num) : t num :=
  Make (nstore x) (nstore y) (nstore z) (nstore w).

(* v[2] = x and v[3] = x *)
Definition set2 (v : t num) (x : num) : t num :=
  Make (c0 v) (c1 v) (nstore x) (c3 v).
Definition set3 (v : t num) (x : num) : t num :=
  Make (c0 v) (c1 v) (c2 v) (nstore x).

Definition transformMat4 (out a : t num) (m : mat4.t num) : t num :=
  let x := c0 a in let y := c1 a in let z := c2 a in let w := c3 a in
  Make (nstore (mat4.m0 m * x + mat4.m4 m * y + mat4.m8 m * z + mat4.m12 m * w))
       (nstore (mat4.m1 m * x + mat4.m5 m * y + mat4.m9 m * z + mat4.m13 m * w))
       (nstore (mat4.m2 m * x + mat4.m6 m * y + mat4.m10 m * z + mat4.m14 m * w))
       (nstore (mat4.m3 m * x + mat4.m7 m * y + mat4.m11 m * z + mat4.m15 m * w)).
End Ops.
End vec4.

(** ** interfaces.ts *)

Record ProjectedMouse (num : Type) : Type := {
  rayStart : vec3.t num;
  rayEnd : vec3.t num;
  rayDirection : vec3.t num
}.

Module BoundingBox.
Record t (num : Type) : Type := Make { min : vec3.t num; max : vec3.t num }.
Arguments Make {num} _ _.
End BoundingBox.

Record PerspectiveCamera (num : Type) : Type := {
  projectionMatrix : mat4.t num;
  viewMatrixInverse : mat4.t num;
  position : vec3.t num
}.

(** ** Ray construction and intersection routines *)

Section Routines.
Context {num : Type} `{Number num}.
Local Open Scope js_scope.

(* The optional third argument: [rayScale = 999] when it is not given. *)
Definition defaultRayScale : num := lit 999.

(* Lines 92-106: the world-space direction before it is normalised. *)
Definition worldDirection
    (normMouseCoords : vec2.t num) (camera : PerspectiveCamera num)
    : vec3.t num :=
  let normX := vec2.c0 normMouseCoords in
  let normY := vec2.c1 normMouseCoords in
  let vec4Clip := vec4.fromValues normX normY (lit (-1)) (lit 1) in
  let vec4Eye := vec4.create in
  let matInvProjection := mat4.create in
  let matInvProjection :=
    mat4.invert matInvProjection (projectionMatrix camera) in
  let vec4Eye := vec4.transformMat4 vec4Eye vec4Clip matInvProjection in
  let vec4Eye := vec4.set2 vec4Eye (lit (-1)) in
  let vec4Eye := vec4.set3 vec4Eye (lit 0) in
  let vec4World := vec4.create in
  let vec4World :=
    vec4.transformMat4 vec4World vec4Eye (viewMatrixInverse camera) in
  vec3.fromValues (vec4.c0 vec4World) (vec4.c1 vec4World) (vec4.c2 vec4World).

Definition projectMouseToWorldSpace
    (normMouseCoords : vec2.t num) (camera : PerspectiveCamera num)
    (rayScale : option num) : ProjectedMouse num :=
  let rayScale :=
    match rayScale with Some s => s | None => defaultRayScale end in
  let ray := worldDirection normMouseCoords camera in
  let ray := vec3.normalize ray ray in
  let rayStart :=
    vec3.fromValues (vec3.c0 (position camera)) (vec3.c1 (position camera))
                    (vec3.c2 (position camera)) in
  let rayEnd := vec3.create in
  let rayEnd := vec3.copy rayEnd rayStart in
  let rayMul := vec3.create in
  let rayMul := vec3.copy rayMul ray in
  let rayMul := vec3.scale rayMul ray rayScale in
  let rayEnd := vec3.add rayEnd rayStart rayMul in
  let rayDirection := vec3.create in
  let rayDirection := vec3.subtract rayDirection rayEnd rayStart in
  {| rayStart := rayStart; rayEnd := rayEnd; rayDirection := rayDirection |}.

(* [number, vec3] *)
Definition Hit : Type := (num * vec3.t num)%type.

Definition intersectRayWithPlane
    (rayStart rayDirection planePos planeNormal : vec3.t num) : option Hit :=
  let rayToPlaneDelta := vec3.create in
  let rayToPlaneDelta := vec3.sub rayToPlaneDelta planePos rayStart in
  let wp := vec3.dot rayToPlaneDelta planeNormal in
  let vp := vec3.dot rayDirection planeNormal in
  let time := wp / vp in
  if time >=? lit 0 then
    let intersectPoint := vec3.create in
    let intersectPoint := vec3.scale intersectPoint rayDirection time in
    let intersectPoint := vec3.add intersectPoint intersectPoint rayStart in
    Some (time, intersectPoint)
  else None.

(* [vec3, vec3, vec3] and verticesArr[i] *)
Definition Triangle : Type := (vec3.t num * vec3.t num * vec3.t num)%type.

Definition triangleAt (verticesArr : Triangle) (i : nat) : vec3.t num :=
  let '(a, b, c) := verticesArr in
  match i with 0%nat => a | 1%nat => b | _ => c end.

Definition triangleLength (verticesArr : Triangle) : nat := 3.

(* The scratch vectors of the edge loop. *)
Record EdgeScratch : Type := {
  edge : vec3.t num;
  intersectPointLength : vec3.t num;
  crossProductEdgeIntersectPointLength : vec3.t num
}.

(* One pass of the loop body for index [i]: the scratch vectors after it,
   and whether the body returned null. *)
Definition edgeStep
    (verticesArr : Triangle) (planeNormal intersectPoint : vec3.t num)
    (s : EdgeScratch) (i : nat) : EdgeScratch * bool :=
  let ii := ((i + 1) mod 3)%nat in
  let edge := vec3.copy (edge s) (triangleAt verticesArr ii) in
  let edge := vec3.sub edge edge (triangleAt verticesArr i) in
  let intersectPointLength :=
    vec3.copy (intersectPointLength s) intersectPoint in
  let intersectPointLength :=
    vec3.sub intersectPointLength intersectPointLength
             (triangleAt verticesArr i) in
  let crossProductEdgeIntersectPointLength :=
    vec3.cross (crossProductEdgeIntersectPointLength s)
               edge intersectPointLength in
  ({| edge := edge;
      intersectPointLength := intersectPointLength;
      crossProductEdgeIntersectPointLength :=
        crossProductEdgeIntersectPointLength |},
   vec3.dot planeNormal crossProductEdgeIntersectPointLength <? lit 0).

(* for (let i = 0, ii; i < verticesArr.length; i++) { ... return null ... } *)
Fixpoint edgeLoop
    (verticesArr : Triangle) (planeNormal intersectPoint : vec3.t num)
    (s : EdgeScratch) (indices : list nat) : bool :=
  match indices with
  | [] => true
  | i :: rest =>
      let '(s', returnsNull) :=
        edgeStep verticesArr planeNormal intersectPoint s i in
      if returnsNull then false
      else edgeLoop verticesArr planeNormal intersectPoint s' rest
  end.

Definition intersectRayWithTriangle
    (rayStart rayDirection : vec3.t num) (verticesArr : Triangle)
    : option Hit :=
  let planeNormal := vec3.create in
  let v0 := triangleAt verticesArr 0 in
  let v1 := triangleAt verticesArr 1 in
  let v2 := triangleAt verticesArr 2 in
  let edge0 := vec3.create in
  let edge0 := vec3.sub edge0 v1 v0 in
  let edge2 := vec3.create in
  let edge2 := vec3.sub edge2 v2 v0 in
  let planeNormal := vec3.cross planeNormal edge0 edge2 in
  let interesction :=
    intersectRayWithPlane rayStart rayDirection v0 planeNormal in
  match interesction with
  | None => None
  | Some (rayTime, intersectPoint) =>
      let scratch :=
        {| edge := vec3.create;
           intersectPointLength := vec3.create;
           crossProductEdgeIntersectPointLength := vec3.create |} in
      if edgeLoop verticesArr planeNormal intersectPoint scratch
                  (seq 0 (triangleLength verticesArr))
      then Some (rayTime, intersectPoint)
      else None
  end.

(* [vec3, vec3, vec3, vec3] and verticesArr[i] *)
Definition Quad : Type :=
  (vec3.t num * vec3.t num * vec3.t num * vec3.t num)%type.

Definition quadAt (verticesArr : Quad) (i : nat) : vec3.t num :=
  let '(a, b, c, d) := verticesArr in
  match i with 0%nat => a | 1%nat => b | 2%nat => c | _ => d end.

Definition intersectRayWithQuad
    (rayStart rayDirection : vec3.t num) (verticesArr : Quad)
    : option Hit :=
  let v0 := quadAt verticesArr 0 in
  let v1 := quadAt verticesArr 1 in
  let v2 := quadAt verticesArr 2 in
  let planeNormal := vec3.create in
  let edge0 := vec3.create in
  let edge0 := vec3.sub edge0 v0 v1 in
  let edge1 := vec3.create in
  let edge1 := vec3.sub edge1 v2 v1 in
  let planeNormal := vec3.cross planeNormal edge1 edge0 in
  let intersection :=
    intersectRayWithPlane rayStart rayDirection v0 planeNormal in
  match intersection with
  | None => None
  | Some (rayTime, intersectPoint) =>
      let edge0 := vec3.sub edge0 v1 v0 in
      let plen := vec3.create in
      let plen := vec3.sub plen intersectPoint v0 in
      let t := vec3.dot plen edge0 / vec3.dot edge0 edge0 in
      if (t <? lit 0) || (t >? lit 1) then None
      else
        let edge1 := vec3.sub edge1 v2 v1 in
        let plen := vec3.sub plen intersectPoint v1 in
        let t := vec3.dot plen edge1 / vec3.dot edge1 edge1 in
        if (t <? lit 0) || (t >? lit 1) then None
        else Some (rayTime, intersectPoint)
  end.

Definition intersectRayWithAABB
    (origin direction : vec3.t num) (box : BoundingBox.t num)
    : option num :=
  let tMinX :=
    (vec3.c0 (BoundingBox.min box) - vec3.c0 origin) / vec3.c0 direction in
  let tMaxX :=
    (vec3.c0 (BoundingBox.max box) - vec3.c0 origin) / vec3.c0 direction in
  let tMinY :=
    (vec3.c1 (BoundingBox.min box) - vec3.c1 origin) / vec3.c1 direction in
  let tMaxY :=
    (vec3.c1 (BoundingBox.max box) - vec3.c1 origin) / vec3.c1 direction in
  let tMinZ :=
    (vec3.c2 (BoundingBox.min box) - vec3.c2 origin) / vec3.c2 direction in
  let tMaxZ :=
    (vec3.c2 (BoundingBox.max box) - vec3.c2 origin) / vec3.c2 direction in
  let tmin :=
    nmax (nmax (nmin tMinX tMaxX) (nmin tMinY tMaxY)) (nmin tMinZ tMaxZ) in
  let tmax :=
    nmin (nmin (nmax tMinX tMaxX) (nmax tMinY tMaxY)) (nmax tMinZ tMaxZ) in
  if tmax <? lit 0 then None
  else if tmin >? tmax then None
  else Some tmin.
End Routines.

(** ** binary64: the numbers the program runs on *)

Module F64.
Local Open Scope float_scope.

Definition of_Z (z : Z) : float :=
  match z with
  | Z0 => PrimFloat.zero
  | Zpos _ => PrimFloat.of_uint63 (Uint63.of_Z z)
  | Zneg p => - PrimFloat.of_uint63 (Uint63.of_Z (Zpos p))
  end.

(* Math.max: NaN if either operand is NaN; +0 is larger than -0. *)
Definition max (a b : float) : float :=
  if PrimFloat.is_nan a || PrimFloat.is_nan b then PrimFloat.nan
  else if a <? b then b
  else if b <? a then a
  else if PrimFloat.get_sign a then b else a.

(* Math.min: NaN if either operand is NaN; -0 is smaller than +0. *)
Definition min (a b : float) : float :=
  if PrimFloat.is_nan a || PrimFloat.is_nan b then PrimFloat.nan
  else if a <? b then a
  else if b <? a then b
  else if PrimFloat.get_sign a then a else b.

(* ToBoolean: false for +0, -0 and NaN. *)
Definition to_boolean (a : float) : bool :=
  negb (PrimFloat.is_zero a || PrimFloat.is_nan a).

(* Math.fround, the conversion that a write into a Float32Array applies:
   NaN, the zeros and the infinities are kept; a finite number is rounded
   to the nearest number of binary32 (precision 24, largest exponent 128),
   ties to even, which overflows to an infinity and underflows to a zero
   of the same sign.  Every binary32 number is a binary64 number. *)
Definition fround (a : float) : float :=
  match Prim2SF a with
  | S754_finite s m e => SF2Prim (binary_round 24 128 s m e)
  | _ => a
  end.

(* Every float is NaN, a signed zero, a signed infinity, or a finite
   non-zero number. *)
Variant shape (x : float) : Prop :=
| shape_nan : x = nan -> shape x
| shape_zero : forall s, Prim2SF x = S754_zero s -> shape x
| shape_infinity : forall s, Prim2SF x = S754_infinity s -> shape x
| shape_finite : forall s m e, Prim2SF x = S754_finite s m e -> shape x.
End F64.

#[global] Instance float64 : Number float := {
  lit := F64.of_Z;
  nadd := PrimFloat.add;
  nsub := PrimFloat.sub;
  nmul := PrimFloat.mul;
  ndiv := PrimFloat.div;
  nlt := PrimFloat.ltb;
  nle := PrimFloat.leb;
  nmin := F64.min;
  nmax := F64.max;
  nsqrt := PrimFloat.sqrt;
  truthy := F64.to_boolean;
  nstore := F64.fround
}.

Module Exact.
Local Open Scope R_scope.

Definition ltb (a b : R) : bool := if Rlt_dec a b then true else false.
Definition leb (a b : R) : bool := if Rle_dec a b then true else false.
Definition to_boolean (a : R) : bool := if Req_dec_T a 0 then false else true.
End Exact.

#[global] Instance exact : Number R := {
  lit := IZR;
  nadd := Rplus;
  nsub := Rminus;
  nmul := Rmult;
  ndiv := Rdiv;
  nlt := Exact.ltb;
  nle := Exact.leb;
  nmin := Rmin;
  nmax := Rmax;
  nsqrt := sqrt;
  truthy := Exact.to_boolean;
  nstore := fun a => a
}.

(** ** The specification's vocabulary

    The specification writes vector expressions without a receiving
    vector: [a - b], [a + b], [a * s], [cross(a, b)], [dot(a, b)].  They
    stand for the gl-matrix call that writes into a vector of its own, so
    each component of [a - b], [a + b], [a * s], [cross(a, b)] and
    [normalize(a)] is rounded to single precision on binary64, and is the
    plain result in exact arithmetic; [dot(a, b)] is a number and is not
    stored. *)

Section Vocabulary.
Context {num : Type} `{Number num}.

Definition vsub (a b : vec3.t num) : vec3.t num := vec3.sub vec3.create a b.
Definition vadd (a b : vec3.t num) : vec3.t num := vec3.add vec3.create a b.
Definition vscale (a : vec3.t num) (s : num) : vec3.t num :=
  vec3.scale vec3.create a s.
Definition vcross (a b : vec3.t num) : vec3.t num :=
  vec3.cross vec3.create a b.
Definition vdot (a b : vec3.t num) : num := vec3.dot a b.
(* The contents of a scratch vector after [vec3.copy(scratch, a)]. *)
Definition vcopy (a : vec3.t num) : vec3.t num := vec3.copy vec3.create a.
Definition vnormalize (a : vec3.t num) : vec3.t num :=
  vec3.normalize vec3.create a.
(* The Euclidean length of a vector. *)
Definition magnitude (a : vec3.t num) : num :=
  nsqrt (nadd (nadd (nmul (vec3.c0 a) (vec3.c0 a)) (nmul (vec3.c1 a) (vec3.c1 a)))
              (nmul (vec3.c2 a) (vec3.c2 a))).
(* The edge vector [a -> b] of the loop of intersectRayWithTriangle: the
   end vertex is copied into the scratch vector, then the start vertex is
   subtracted from it. *)
Definition edgeVector (a b : vec3.t num) : vec3.t num := vsub (vcopy b) a.
(* The signed test of one edge [a -> b] for a point [p] of the plane:
   [dot(planeNormal, cross(edge, p - a))], the point being copied into a
   scratch vector as well. *)
Definition edgeSide (planeNormal a b p : vec3.t num) : num :=
  vdot planeNormal (vcross (edgeVector a b) (edgeVector a p)).

(* The parameter of the projection of [p - a] on the edge [a -> b]. *)
Definition edgeParameter (p a b : vec3.t num) : num :=
  (vdot (vsub p a) (vsub b a) / vdot (vsub b a) (vsub b a))%js.

(* tMin_i and tMax_i: the times at which the ray crosses the two planes of
   the slab of axis [i]. *)
Definition axisMin (origin direction : vec3.t num) (box : BoundingBox.t num)
    (i : nat) : num :=
  ((vec3.get (BoundingBox.min box) i - vec3.get origin i) / vec3.get direction i)%js.
Definition axisMax (origin direction : vec3.t num) (box : BoundingBox.t num)
    (i : nat) : num :=
  ((vec3.get (BoundingBox.max box) i - vec3.get origin i) / vec3.get direction i)%js.

(* Math.min(tMin_i, tMax_i) and Math.max(tMin_i, tMax_i): where the ray
   enters and leaves the slab of axis [i]. *)
Definition axisNear (origin direction : vec3.t num) (box : BoundingBox.t num)
    (i : nat) : num :=
  nmin (axisMin origin direction box i) (axisMax origin direction box i).
Definition axisFar (origin direction : vec3.t num) (box : BoundingBox.t num)
    (i : nat) : num :=
  nmax (axisMin origin direction box i) (axisMax origin direction box i).

(* The outcome of the two comparisons that close intersectRayWithAABB. *)
Definition slabTest (tmin tmax : num) : option num :=
  if ((tmax <? lit 0) || (tmin >? tmax))%js then None else Some tmin.
End Vocabulary.

(* The two axes other than [i]. *)
Definition otherAxes (i : nat) : nat * nat :=
  match i with 0%nat => (1, 2)%nat | 1%nat => (0, 2)%nat | _ => (0, 1)%nat end.

(* The opposite of a vector, in exact arithmetic. *)
Definition vneg (a : vec3.t R) : vec3.t R :=
  vec3.Make (- vec3.c0 a)%R (- vec3.c1 a)%R (- vec3.c2 a)%R.

(** ** The scalar helpers of the module *)

(* The members of the Math object and the decimal literal that the scalar
   helpers use on top of [Number]. *)
Class MathObject (T : Type) : Type := {
  nfloor : T -> T;                 (* Math.floor(a) *)
  nabs : T -> T;                   (* Math.abs(a) *)
  npi : T;                         (* Math.PI *)
  nhalf : T                        (* the literal 0.5 *)
}.

Section Helpers.
Context {T : Type} `{Number T} `{MathObject T}.
Local Open Scope js_scope.

Definition clamp (num min max : T) : T := nmin (nmax num min) max.

Definition mapNumberRange (val inMin inMax outMin outMax : T) : T :=
  ((val - inMin) * (outMax - outMin)) / (inMax - inMin) + outMin.

Definition normalizeNumber (min max val : T) : T := (val - min) / (max - min).

Definition triangleWave (t : T) : T :=
  let t := t - nfloor (t * nhalf) * lit 2 in
  let t := nmin (nmax t (lit 0)) (lit 2) in
  lit 1 - nabs (t - lit 1).

Definition deg2Rad (deg : T) : T := (deg * npi) / lit 180.

Definition rad2Deg (rad : T) : T := (rad * lit 180) / npi.
End Helpers.

Module F64_math.
Local Open Scope float_scope.

(* The integer part of the magnitude [m * 2^e] of a finite number. *)
Definition magnitudeFloor (m : positive) (e : Z) : Z := Z.shiftl (Zpos m) e.

(* Whether [m * 2^e] is an integer. *)
Definition magnitudeIntegral (m : positive) (e : Z) : bool :=
  (0 <=? e)%Z || (Zpos m mod 2 ^ (- e) =? 0)%Z.

(* ToInt32 of the language: NaN, the zeros and the infinities give 0; a
   finite number is truncated towards zero, reduced modulo 2^32 and read as a
   signed 32-bit integer. *)
Definition toInt32 (x : float) : Z :=
  match Prim2SF x with
  | S754_finite s m e =>
      let int := if s then (- magnitudeFloor m e)%Z else magnitudeFloor m e in
      let int32bit := (int mod 2 ^ 32)%Z in
      if (2 ^ 31 <=? int32bit)%Z then (int32bit - 2 ^ 32)%Z else int32bit
  | _ => 0%Z
  end.

(* Math.floor: NaN, the zeros, the infinities and the integers are returned
   as they are; the other numbers have a magnitude below 2^53 and their floor
   is an integer that binary64 represents. *)
Definition floor (x : float) : float :=
  match Prim2SF x with
  | S754_finite s m e =>
      if magnitudeIntegral m e then x
      else if s then F64.of_Z (- (magnitudeFloor m e + 1))
      else F64.of_Z (magnitudeFloor m e)
  | _ => x
  end.

(* Math.PI *)
Definition PI : float := 0x1.921fb54442d18p+1.
End F64_math.

#[global] Instance float64_math : MathObject float := {
  nfloor := F64_math.floor;
  nabs := PrimFloat.abs;
  npi := F64_math.PI;
  nhalf := 0.5%float
}.

#[global] Instance exact_math : MathObject R := {
  nfloor := fun r => IZR (Int_part r);
  nabs := Rabs;
  npi := Rtrigo1.PI;
  nhalf := (/ 2)%R
}.

(* The bitwise operators work on the 32-bit integers that ToInt32 extracts
   from their operands: [(value & (value - 1)) === 0]. *)
Definition isPowerOf2 (value : float) : bool :=
  (Z.land (F64_math.toInt32 value) (F64_math.toInt32 (value - 1)%float) =? 0)%Z.

(** ** Vocabulary of the properties of the helpers and of the exact
       readings of the intersection routines *)

(* The shapes of a binary64 number. *)
Definition SFzeroOrNaN (x : spec_float) : bool :=
  match x with S754_zero _ | S754_nan => true | _ => false end.
Definition SFnotFinite (x : spec_float) : bool :=
  match x with S754_infinity _ | S754_nan => true | _ => false end.
Definition SFisFinite (x : spec_float) : bool :=
  match x with S754_zero _ | S754_finite _ _ _ => true | _ => false end.
Definition SFisZero (x : spec_float) : bool :=
  match x with S754_zero _ => true | _ => false end.
Definition SFisNaN (x : spec_float) : bool :=
  match x with S754_nan => true | _ => false end.

(* 0, -0 or NaN: the numbers that [!x] takes for false. *)
Definition zeroOrNaN (x : float) : Prop := SFzeroOrNaN (Prim2SF x) = true.
(* NaN, Infinity or -Infinity. *)
Definition notFinite (x : float) : Prop := SFnotFinite (Prim2SF x) = true.
(* A vector whose three components are 0, -0 or NaN. *)
Definition zeroOrNaN3 (a : vec3.t float) : Prop :=
  zeroOrNaN (vec3.c0 a) /\ zeroOrNaN (vec3.c1 a) /\ zeroOrNaN (vec3.c2 a).

(* A key whose lexicographic order is the order of the numbers other than
   NaN; the two zeros share their key. *)
Definition SFkey (x : spec_float) : Z * Z * Z :=
  match x with
  | S754_zero _ => (0, 0, 0)%Z
  | S754_infinity s => (if s then -2 else 2, 0, 0)%Z
  | S754_nan => (0, 0, 0)%Z
  | S754_finite s m e => if s then (-1, - e, Zneg m)%Z else (1, e, Zpos m)%Z
  end.

Definition keyCompare (k k' : Z * Z * Z) : comparison :=
  let '(a, b, c) := k in
  let '(a', b', c') := k' in
  match (a ?= a')%Z with
  | Eq => match (b ?= b')%Z with Eq => (c ?= c')%Z | r => r end
  | r => r
  end.

Definition klt (k k' : Z * Z * Z) : Prop :=
  let '(a, b, c) := k in
  let '(a', b', c') := k' in
  (a < a' \/ (a = a' /\ (b < b' \/ (b = b' /\ c < c'))))%Z.

Definition kle (k k' : Z * Z * Z) : Prop :=
  let '(a, b, c) := k in
  let '(a', b', c') := k' in
  (a < a' \/ (a = a' /\ (b < b' \/ (b = b' /\ c <= c'))))%Z.

Definition keq (k k' : Z * Z * Z) : Prop :=
  let '(a, b, c) := k in
  let '(a', b', c') := k' in
  (a = a' /\ b = b' /\ c = c')%Z.

Definition key (x : float) : Z * Z * Z := SFkey (Prim2SF x).

(* The point of parameter [s] on the line of a ray. *)
Definition pointAt (origin direction : vec3.t R) (s : R) : vec3.t R :=
  vadd origin (vscale direction s).

(* The point [v0 + e1 * u + e2 * v]. *)
Definition combination (v0 e1 e2 : vec3.t R) (u v : R) : vec3.t R :=
  vadd v0 (vadd (vscale e1 u) (vscale e2 v)).

(* A point lies in the closed box. *)
Definition insideBox (box : BoundingBox.t R) (p : vec3.t R) : Prop :=
  forall i : nat, (i < 3)%nat ->
    (vec3.get (BoundingBox.min box) i <= vec3.get p i <=
     vec3.get (BoundingBox.max box) i)%R.

(* The largest entry time and the smallest exit time of the three slabs, in
   exact arithmetic. *)
Definition slabEntry (origin direction : vec3.t R) (box : BoundingBox.t R) : R :=
  Rmax (Rmax (axisNear origin direction box 0) (axisNear origin direction box 1))
       (axisNear origin direction box 2).
Definition slabExit (origin direction : vec3.t R) (box : BoundingBox.t R) : R :=
  Rmin (Rmin (axisFar origin direction box 0) (axisFar origin direction box 1))
       (axisFar origin direction box 2).

(** * Properties *)

(** ** Facts about binary64 *)

Module F64_facts.
Local Open Scope float_scope.

Lemma float_shape (x : float) : F64.shape x.
Proof.
  destruct (Prim2SF x) as [s|s| |s m e] eqn:E.
  - now apply F64.shape_zero with s.
  - now apply F64.shape_infinity with s.
  - apply F64.shape_nan. now rewrite <- (SF2Prim_Prim2SF x), E.
  - now apply F64.shape_finite with s m e.
Qed.

Lemma of_zero (x : float) (s : bool) :
  Prim2SF x = S754_zero s -> x = if s then neg_zero else zero.
Proof.
  intros E. rewrite <- (SF2Prim_Prim2SF x), E. now destruct s.
Qed.

Lemma of_infinity (x : float) (s : bool) :
  Prim2SF x = S754_infinity s -> x = if s then neg_infinity else infinity.
Proof.
  intros E. rewrite <- (SF2Prim_Prim2SF x), E. now destruct s.
Qed.

Lemma SFadd_comm (x y : spec_float) : SF64add x y = SF64add y x.
Proof.
  unfold SF64add, SFadd.
  destruct x as [sx|sx| |sx mx ex], y as [sy|sy| |sy my ey];
    try reflexivity; try (now destruct sx, sy).
  rewrite (Z.min_comm ex ey). f_equal. apply Z.add_comm.
Qed.

(** Addition of two numbers does not depend on their order. *)
Lemma add_comm (x y : float) : x + y = y + x.
Proof.
  apply Prim2SF_inj. rewrite !add_spec. apply SFadd_comm.
Qed.

Lemma SFcompare_Lt_swap (x y : spec_float) :
  SFcompare x y = Some Lt -> SFcompare y x = Some Gt.
Proof.
  destruct x as [sx|sx| |sx mx ex], y as [sy|sy| |sy my ey]; simpl;
    try discriminate; try (now destruct sx); try (now destruct sy);
    try (now destruct sx, sy).
  assert (Hm : Pos.compare_cont Eq my mx = CompOpp (Pos.compare_cont Eq mx my))
    by (symmetry; apply (Pos.compare_cont_antisym mx my Eq)).
  destruct sx, sy; try discriminate; try reflexivity;
    rewrite (Z.compare_antisym ex ey), Hm;
    destruct (ex ?= ey)%Z; simpl; try discriminate; try reflexivity;
    destruct (Pos.compare_cont Eq mx my); simpl; congruence.
Qed.

(** [a <= b] excludes [b < a]. *)
Lemma leb_not_gt (a b : float) : (a <=? b) = true -> (b <? a) = false.
Proof.
  rewrite leb_spec, ltb_spec. unfold SFleb, SFltb.
  destruct (SFcompare (Prim2SF b) (Prim2SF a)) as [[]|] eqn:E; try reflexivity.
  apply SFcompare_Lt_swap in E. now rewrite E.
Qed.

(** [a < b] excludes [b <= a]. *)
Lemma ltb_not_ge (a b : float) : (a <? b) = true -> (b <=? a) = false.
Proof.
  rewrite leb_spec, ltb_spec. unfold SFleb, SFltb.
  destruct (SFcompare (Prim2SF a) (Prim2SF b)) as [[]|] eqn:E; try discriminate.
  apply SFcompare_Lt_swap in E. now rewrite E.
Qed.

Lemma SFcompare_refl_finite (s : bool) (m : positive) (e : Z) :
  SFcompare (S754_finite s m e) (S754_finite s m e) = Some Eq.
Proof.
  simpl. rewrite Z.compare_refl, Pos.compare_cont_refl. now destruct s.
Qed.

(** What the comparisons say about a finite non-zero number. *)
Lemma finite_facts (x : float) (s : bool) (m : positive) (e : Z) :
  Prim2SF x = S754_finite s m e ->
  is_nan x = false /\
  (neg_infinity <? x) = true /\ (x <? neg_infinity) = false /\
  (x <? infinity) = true /\ (infinity <? x) = false.
Proof.
  intros E. unfold is_nan.
  rewrite eqb_spec, !ltb_spec, E.
  change (Prim2SF neg_infinity) with (S754_infinity true).
  change (Prim2SF infinity) with (S754_infinity false).
  unfold SFeqb, SFltb. rewrite SFcompare_refl_finite. now simpl.
Qed.

Lemma is_nan_false_shape (x : float) :
  is_nan x = false ->
  (exists s : bool, x = if s then neg_zero else zero) \/
  (exists s : bool, x = if s then neg_infinity else infinity) \/
  (exists s m e, Prim2SF x = S754_finite s m e).
Proof.
  intros Hx. destruct (float_shape x) as [-> | s E | s E | s m e E].
  - discriminate.
  - left. exists s. now apply of_zero.
  - right; left. exists s. now apply of_infinity.
  - right; right. now exists s, m, e.
Qed.

Ltac by_shape x :=
  let s := fresh "s" in let E := fresh "E" in
  let m := fresh "m" in let e := fresh "e" in
  destruct (float_shape x) as [-> | s E | s E | s m e E];
  [ reflexivity
  | rewrite (of_zero x E); destruct s; reflexivity
  | rewrite (of_infinity x E); destruct s; reflexivity
  | destruct (finite_facts x E) as (Hnan & Hlt1 & Hlt2 & Hlt3 & Hlt4);
    unfold F64.max, F64.min;
    change (is_nan neg_infinity) with false;
    change (is_nan infinity) with false;
    rewrite Hnan; simpl;
    rewrite ?Hlt1, ?Hlt2, ?Hlt3, ?Hlt4; reflexivity ].

(** [-Infinity] is neutral for Math.max and [Infinity] for Math.min,
    NaN included. *)
Lemma max_neg_infinity_l (x : float) : F64.max neg_infinity x = x.
Proof. by_shape x. Qed.

Lemma max_neg_infinity_r (x : float) : F64.max x neg_infinity = x.
Proof. by_shape x. Qed.

Lemma min_infinity_l (x : float) : F64.min infinity x = x.
Proof. by_shape x. Qed.

Lemma min_infinity_r (x : float) : F64.min x infinity = x.
Proof. by_shape x. Qed.

Ltac by_shape_not_nan x H :=
  let s := fresh "s" in let E := fresh "E" in
  let m := fresh "m" in let e := fresh "e" in
  destruct (is_nan_false_shape x H) as [[s ->] | [[s ->] | (s & m & e & E)]];
  [ destruct s; reflexivity
  | destruct s; reflexivity
  | destruct (finite_facts x E) as (Hnan & Hlt1 & Hlt2 & Hlt3 & Hlt4);
    unfold F64.max, F64.min;
    change (is_nan neg_infinity) with false;
    change (is_nan infinity) with false;
    rewrite Hnan; simpl;
    rewrite ?Hlt1, ?Hlt2, ?Hlt3, ?Hlt4; reflexivity ].

(** [Infinity] absorbs in Math.max and [-Infinity] in Math.min, for
    operands other than NaN. *)
Lemma max_infinity_l (x : float) :
  is_nan x = false -> F64.max infinity x = infinity.
Proof. intros H. by_shape_not_nan x H. Qed.

Lemma max_infinity_r (x : float) :
  is_nan x = false -> F64.max x infinity = infinity.
Proof. intros H. by_shape_not_nan x H. Qed.

Lemma min_neg_infinity_l (x : float) :
  is_nan x = false -> F64.min neg_infinity x = neg_infinity.
Proof. intros H. by_shape_not_nan x H. Qed.

Lemma min_neg_infinity_r (x : float) :
  is_nan x = false -> F64.min x neg_infinity = neg_infinity.
Proof. intros H. by_shape_not_nan x H. Qed.

(** Math.max and Math.min of two numbers other than NaN are not NaN. *)
Lemma max_not_nan (a b : float) :
  is_nan a = false -> is_nan b = false -> is_nan (F64.max a b) = false.
Proof.
  intros Ha Hb. unfold F64.max. rewrite Ha, Hb; simpl.
  destruct (a <? b); [assumption|].
  destruct (b <? a); [assumption|].
  now destruct (get_sign a).
Qed.

Lemma min_not_nan (a b : float) :
  is_nan a = false -> is_nan b = false -> is_nan (F64.min a b) = false.
Proof.
  intros Ha Hb. unfold F64.min. rewrite Ha, Hb; simpl.
  destruct (a <? b); [assumption|].
  destruct (b <? a); [assumption|].
  now destruct (get_sign a).
Qed.

(** The numbers equal to zero are [+0] and [-0]. *)
Lemma eqb_zero (d : float) :
  (d =? 0) = true -> exists s, Prim2SF d = S754_zero s.
Proof.
  rewrite eqb_spec. change (Prim2SF 0) with (S754_zero false).
  unfold SFeqb.
  destruct (Prim2SF d) as [s|s| |s m e]; simpl; try discriminate.
  - intros _. now exists s.
  - now destruct s.
  - now destruct s.
Qed.

(** The negative numbers are [-Infinity] and the finite numbers of negative
    sign; the positive ones are [Infinity] and the finite numbers of
    positive sign. *)
Lemma ltb_zero_negative (x : float) :
  (x <? 0) = true ->
  Prim2SF x = S754_infinity true \/ exists m e, Prim2SF x = S754_finite true m e.
Proof.
  rewrite ltb_spec. change (Prim2SF 0) with (S754_zero false).
  unfold SFltb.
  destruct (Prim2SF x) as [s|s| |s m e]; simpl; try discriminate.
  - destruct s; [now left | discriminate].
  - destruct s; [right; now exists m, e | discriminate].
Qed.

Lemma ltb_zero_positive (x : float) :
  (0 <? x) = true ->
  Prim2SF x = S754_infinity false \/ exists m e, Prim2SF x = S754_finite false m e.
Proof.
  rewrite ltb_spec. change (Prim2SF 0) with (S754_zero false).
  unfold SFltb.
  destruct (Prim2SF x) as [s|s| |s m e]; simpl; try discriminate.
  - destruct s; [discriminate | now left].
  - destruct s; [discriminate | right; now exists m, e].
Qed.

(** Dividing a negative or a positive number by a zero gives an infinity,
    whose sign is the product of the two signs. *)
Lemma div_negative_by_zero (x d : float) (s : bool) :
  (x <? 0) = true -> Prim2SF d = S754_zero s ->
  x / d = if s then infinity else neg_infinity.
Proof.
  intros Hx Hd. apply Prim2SF_inj. rewrite div_spec, Hd.
  destruct (ltb_zero_negative Hx) as [E | (m & e & E)]; rewrite E;
    now destruct s.
Qed.

Lemma div_positive_by_zero (x d : float) (s : bool) :
  (0 <? x) = true -> Prim2SF d = S754_zero s ->
  x / d = if s then neg_infinity else infinity.
Proof.
  intros Hx Hd. apply Prim2SF_inj. rewrite div_spec, Hd.
  destruct (ltb_zero_positive Hx) as [E | (m & e & E)]; rewrite E;
    now destruct s.
Qed.
End F64_facts.

(** ** The routines as equations *)

Section Equations.
Context {num : Type} `{Number num}.
Local Open Scope js_scope.

Lemma intersectRayWithPlane_eq (rayStart rayDirection planePos planeNormal : vec3.t num) :
  intersectRayWithPlane rayStart rayDirection planePos planeNormal =
  let time := vdot (vsub planePos rayStart) planeNormal / vdot rayDirection planeNormal in
  if time >=? lit 0
  then Some (time, vadd (vscale rayDirection time) rayStart)
  else None.
Proof. reflexivity. Qed.

Lemma intersectRayWithAABB_eq (origin direction : vec3.t num) (box : BoundingBox.t num) :
  let tMin i :=
    (vec3.get (BoundingBox.min box) i - vec3.get origin i) / vec3.get direction i in
  let tMax i :=
    (vec3.get (BoundingBox.max box) i - vec3.get origin i) / vec3.get direction i in
  intersectRayWithAABB origin direction box =
  slabTest
    (nmax (nmax (nmin (tMin 0%nat) (tMax 0%nat)) (nmin (tMin 1%nat) (tMax 1%nat)))
          (nmin (tMin 2%nat) (tMax 2%nat)))
    (nmin (nmin (nmax (tMin 0%nat) (tMax 0%nat)) (nmax (tMin 1%nat) (tMax 1%nat)))
          (nmax (tMin 2%nat) (tMax 2%nat))).
Proof.
  unfold intersectRayWithAABB, slabTest; simpl.
  now destruct (nlt _ (lit 0)).
Qed.

Lemma intersectRayWithTriangle_eq (rayStart rayDirection v0 v1 v2 : vec3.t num) :
  let planeNormal := vcross (vsub v1 v0) (vsub v2 v0) in
  intersectRayWithTriangle rayStart rayDirection (v0, v1, v2) =
  match intersectRayWithPlane rayStart rayDirection v0 planeNormal with
  | None => None
  | Some (time, point) =>
      if (edgeSide planeNormal v0 v1 point <? lit 0)
         || (edgeSide planeNormal v1 v2 point <? lit 0)
         || (edgeSide planeNormal v2 v0 point <? lit 0)
      then None
      else Some (time, point)
  end.
Proof.
  intros planeNormal. unfold intersectRayWithTriangle. simpl triangleAt.
  change (vec3.cross vec3.create (vec3.sub vec3.create v1 v0)
            (vec3.sub vec3.create v2 v0)) with planeNormal.
  destruct (intersectRayWithPlane rayStart rayDirection v0 planeNormal)
    as [[time point]|]; [|reflexivity].
  unfold triangleLength, edgeLoop, edgeStep; simpl.
  change (vec3.dot planeNormal
            (vec3.cross vec3.create (vec3.sub _ (vec3.copy _ v1) v0)
               (vec3.sub _ (vec3.copy _ point) v0)))
    with (edgeSide planeNormal v0 v1 point).
  change (vec3.dot planeNormal
            (vec3.cross _ (vec3.sub _ (vec3.copy _ v2) v1)
               (vec3.sub _ (vec3.copy _ point) v1)))
    with (edgeSide planeNormal v1 v2 point).
  change (vec3.dot planeNormal
            (vec3.cross _ (vec3.sub _ (vec3.copy _ v0) v2)
               (vec3.sub _ (vec3.copy _ point) v2)))
    with (edgeSide planeNormal v2 v0 point).
  destruct (edgeSide planeNormal v0 v1 point <? lit 0); [reflexivity|].
  destruct (edgeSide planeNormal v1 v2 point <? lit 0); [reflexivity|].
  now destruct (edgeSide planeNormal v2 v0 point <? lit 0).
Qed.

Lemma intersectRayWithQuad_eq (rayStart rayDirection v0 v1 v2 v3 : vec3.t num) :
  let planeNormal := vcross (vsub v2 v1) (vsub v0 v1) in
  intersectRayWithQuad rayStart rayDirection (v0, v1, v2, v3) =
  match intersectRayWithPlane rayStart rayDirection v0 planeNormal with
  | None => None
  | Some (time, point) =>
      let t1 := edgeParameter point v0 v1 in
      let t2 := edgeParameter point v1 v2 in
      if (t1 <? lit 0) || (t1 >? lit 1) then None
      else if (t2 <? lit 0) || (t2 >? lit 1) then None
      else Some (time, point)
  end.
Proof.
  intros planeNormal. unfold intersectRayWithQuad. simpl quadAt.
  change (vec3.cross vec3.create (vec3.sub vec3.create v2 v1)
            (vec3.sub vec3.create v0 v1)) with planeNormal.
  now destruct (intersectRayWithPlane rayStart rayDirection v0 planeNormal)
    as [[time point]|].
Qed.

Lemma intersectRayWithAABB_axes (origin direction : vec3.t num) (box : BoundingBox.t num) :
  intersectRayWithAABB origin direction box =
  slabTest
    (nmax (nmax (axisNear origin direction box 0) (axisNear origin direction box 1))
          (axisNear origin direction box 2))
    (nmin (nmin (axisFar origin direction box 0) (axisFar origin direction box 1))
          (axisFar origin direction box 2)).
Proof. apply intersectRayWithAABB_eq. Qed.
End Equations.

(** ** Facts in exact arithmetic *)

Ltac vec_unfold :=
  unfold edgeSide, edgeVector, edgeParameter, vneg, magnitude, vnormalize,
    vdot, vcross, vcopy, vsub, vadd, vscale, vec3.dot, vec3.cross, vec3.sub,
    vec3.subtract, vec3.add, vec3.scale, vec3.normalize, vec3.copy,
    vec3.fromValues, vec3.create; simpl.

Section ExactArithmetic.
Local Open Scope R_scope.

Lemma exact_leb_true (a b : R) : Exact.leb a b = true <-> a <= b.
Proof. unfold Exact.leb. destruct (Rle_dec a b); split; intros; easy. Qed.

Lemma exact_ltb_true (a b : R) : Exact.ltb a b = true <-> a < b.
Proof. unfold Exact.ltb. destruct (Rlt_dec a b); split; intros; easy. Qed.

(** The plane hit depends neither on the orientation of the normal nor on the
    point chosen on the plane. *)
Lemma exact_plane_flip (rayStart rayDirection p p' n : vec3.t R) :
  vdot rayDirection n <> 0 ->
  vdot (vsub p' p) n = 0 ->
  intersectRayWithPlane rayStart rayDirection p' (vneg n) =
  intersectRayWithPlane rayStart rayDirection p n.
Proof.
  intros Hv Hp.
  rewrite !intersectRayWithPlane_eq; cbv zeta.
  assert (Ht : (vdot (vsub p' rayStart) (vneg n) / vdot rayDirection (vneg n))%js
               = (vdot (vsub p rayStart) n / vdot rayDirection n)%js).
  { destruct rayStart, rayDirection, p, p', n. revert Hv Hp. vec_unfold.
    intros Hv Hp. field_simplify_eq; [|split; lra]. nra. }
  now rewrite Ht.
Qed.

Lemma exact_reversed_normal (v0 v1 v2 : vec3.t R) :
  vcross (vsub v1 v2) (vsub v0 v2) = vneg (vcross (vsub v1 v0) (vsub v2 v0)).
Proof. destruct v0, v1, v2. vec_unfold. f_equal; ring. Qed.

Lemma exact_edge_in_plane (v0 v1 v2 : vec3.t R) :
  vdot (vsub v2 v0) (vcross (vsub v1 v0) (vsub v2 v0)) = 0.
Proof. destruct v0, v1, v2. vec_unfold. ring. Qed.

(** Walking an edge backwards under the opposite normal gives the same signed
    test. *)
Lemma exact_edgeSide_reversed (n a b p : vec3.t R) :
  edgeSide (vneg n) b a p = edgeSide n a b p.
Proof. destruct n, a, b, p. vec_unfold. ring. Qed.

Lemma exact_truthy (x : R) : x <> 0 -> Exact.to_boolean x = true.
Proof. intros H. unfold Exact.to_boolean. now destruct (Req_dec_T x 0). Qed.

(** [mat4.invert], as written above, does invert: transforming by a matrix
    of non-zero determinant and then by its computed inverse gives the
    vector back. *)
Lemma exact_invert_left (a : mat4.t R) (v : vec4.t R) :
  mat4.determinant a <> 0 ->
  vec4.transformMat4 vec4.create (vec4.transformMat4 vec4.create v a)
    (mat4.invert mat4.create a) = v.
Proof.
  intros Hdet. unfold mat4.invert.
  fold (mat4.determinant a).
  change (@truthy R exact) with Exact.to_boolean.
  rewrite (exact_truthy Hdet). simpl negb. cbv iota.
  revert Hdet. destruct a, v. unfold mat4.determinant, vec4.transformMat4. simpl.
  intros Hdet.
  f_equal; field; exact Hdet.
Qed.

End ExactArithmetic.

(** ** Plane intersection *)

Section Plane.
Local Open Scope float_scope.

Lemma vadd_comm (a b : vec3.t float) : vadd a b = vadd b a.
Proof.
  unfold vadd, vec3.add; simpl.
  now rewrite (F64_facts.add_comm (vec3.c0 a)), (F64_facts.add_comm (vec3.c1 a)),
    (F64_facts.add_comm (vec3.c2 a)).
Qed.

(** C1.  On binary64 with the single-precision stores of gl-matrix, for
    every ray and plane, [intersectRayWithPlane] computes
    [time = dot(planePos - rayStart, planeNormal) /
    dot(rayDirection, planeNormal)]; when [time >= 0] it returns the pair of
    [time] and [rayStart + rayDirection * time], and otherwise (a negative or
    NaN [time]) it returns null.  The difference [planePos - rayStart], the
    product [rayDirection * time] and the sum are vectors that the routine
    allocates: each of their components is rounded to single precision.
    The two dot products and [time] are binary64 numbers. *)
Theorem intersectRayWithPlane_computes
    (rayStart rayDirection planePos planeNormal : vec3.t float) :
  let time :=
    (vdot (vsub planePos rayStart) planeNormal / vdot rayDirection planeNormal)%float in
  intersectRayWithPlane rayStart rayDirection planePos planeNormal =
  if (0 <=? time)%float
  then Some (time, vadd rayStart (vscale rayDirection time))
  else None.
Proof.
  intros time. rewrite intersectRayWithPlane_eq. fold time.
  now rewrite (vadd_comm rayStart).
Qed.

(** The stores at work: for the plane [x = 0.1] and the ray from the origin
    along [(1,0,0)], the difference [planePos - rayStart] is stored as 0.1
    rounded to single precision, which is the time and the first component
    of the point that are returned; and the hit point of the ray from
    [(0,0,1)] along [(1,0,-3)] on the plane [z = 0] has the first
    component 1/3 rounded to single precision. *)
Lemma intersectRayWithPlane_stores :
  intersectRayWithPlane (vec3.Make 0 0 0) (vec3.Make 1 0 0)
                        (vec3.Make 0.1 0 0) (vec3.Make 1 0 0)
  = Some (0.10000000149011612, vec3.Make 0.10000000149011612 0 0) /\
  intersectRayWithPlane (vec3.Make 0 0 1) (vec3.Make 1 0 (-3))
                        (vec3.Make 0 0 0) (vec3.Make 0 0 1)
  = Some (0.33333333333333331, vec3.Make 0.3333333432674408 0 0).
Proof. vm_compute. split; reflexivity. Qed.

(** A plane hit behind the origin of the ray is not reported. *)
Lemma intersectRayWithPlane_behind
    (rayStart rayDirection planePos planeNormal : vec3.t float) :
  (vdot (vsub planePos rayStart) planeNormal / vdot rayDirection planeNormal <? 0)
  = true ->
  intersectRayWithPlane rayStart rayDirection planePos planeNormal = None.
Proof.
  intros Hneg. rewrite intersectRayWithPlane_eq. cbv zeta.
  destruct (nle _ _) eqn:E; [|reflexivity].
  exact (False_ind _ (eq_true_false_abs _ E (F64_facts.ltb_not_ge Hneg))).
Qed.

(** C8.  The ray from [(0,0,0)] along [(1,0,0)] is parallel to the plane
    through [(0,1,0)] with normal [(0,1,0)]: [dot(rayDirection, planeNormal)]
    is 0.  The quotient [1 / 0] is [Infinity], which passes [time >= 0], and
    the routine returns a hit with an infinite time and the point
    [(Infinity, NaN, NaN)] where the claim has null. *)
Theorem intersectRayWithPlane_parallel_reports_hit :
  let rayStart := vec3.Make 0 0 0 in
  let rayDirection := vec3.Make 1 0 0 in
  let planePos := vec3.Make 0 1 0 in
  let planeNormal := vec3.Make 0 1 0 in
  vdot rayDirection planeNormal = 0 /\
  vdot (vsub planePos rayStart) planeNormal / vdot rayDirection planeNormal
  = infinity /\
  intersectRayWithPlane rayStart rayDirection planePos planeNormal
  = Some (infinity, vec3.Make infinity nan nan).
Proof. vm_compute. repeat split. Qed.

(** The same ray against the plane through [(0,-1,0)] gives [-1 / 0], and the
    ray lying in the plane gives [0 / 0]: both are reported as null. *)
Lemma intersectRayWithPlane_parallel_null :
  intersectRayWithPlane (vec3.Make 0 0 0) (vec3.Make 1 0 0)
                        (vec3.Make 0 (-1) 0) (vec3.Make 0 1 0) = None /\
  intersectRayWithPlane (vec3.Make 0 0 0) (vec3.Make 1 0 0)
                        (vec3.Make 0 0 0) (vec3.Make 0 1 0) = None.
Proof. vm_compute. split; reflexivity. Qed.

(** With [O = (0,0,0)], [D = (2^-600, 0, 0)], [P = (2^600, 0, 0)] and
    [N = (1,0,0)], the normal is not zero, the origin is not on the plane and
    [dot(D, N) = 2^-600] is not zero; the difference [P - O] already
    overflows single precision, the time is [Infinity], the hit point is
    [(Infinity, NaN, NaN)] and [dot(Q - P, N)] is NaN. *)
Lemma intersectRayWithPlane_overflow :
  let O := vec3.Make 0 0 0 in
  let D := vec3.Make 0x1p-600 0 0 in
  let P := vec3.Make 0x1p600 0 0 in
  let N := vec3.Make 1 0 0 in
  let Q := vec3.Make infinity nan nan in
  (vdot D N =? 0) = false /\
  (vdot (vsub P O) N =? 0) = false /\
  intersectRayWithPlane O D P N = Some (infinity, Q) /\
  vdot (vsub Q P) N = nan.
Proof. vm_compute. repeat split. Qed.

(** C6, as stated, fails on binary64, also when the time and the point are
    finite.  In both cases below the normal is not zero, the origin is not
    on the plane, [dot(D, N)] is not zero and a hit [(time, Q)] with a
    finite time and a finite point is returned.
    - The plane [z = 2^60] and the ray from [(0,0,2^100)] along [(0,0,-1)]:
      the difference [P - O] is stored as [-2^100], the time is [2^100] and
      [Q] is the origin, at distance [2^60] from the plane:
      [dot(Q - P, N) = -2^60], whether the difference [Q - P] is taken in
      binary64 or by gl-matrix.
    - The plane [x + z = 1] and the ray from the origin along
      [(1, 0, -1 + 2^-40)], all of magnitude at most 1: the time is [2^40]
      and [Q] is [(2^40, 0, -2^40)], for which [dot(Q - P, N)] is -1 in
      binary64. *)
Lemma intersectRayWithPlane_off_plane :
  (let O := vec3.Make 0 0 0x1p100 in
   let D := vec3.Make 0 0 (-1) in
   let P := vec3.Make 0 0 0x1p60 in
   let N := vec3.Make 0 0 1 in
   let Q := vec3.Make 0 0 0 in
   vdot D N = -1 /\
   ((vec3.c0 O - vec3.c0 P) * vec3.c0 N + (vec3.c1 O - vec3.c1 P) * vec3.c1 N
     + (vec3.c2 O - vec3.c2 P) * vec3.c2 N =? 0) = false /\
   intersectRayWithPlane O D P N = Some (0x1p100, Q) /\
   (vec3.c0 Q - vec3.c0 P) * vec3.c0 N + (vec3.c1 Q - vec3.c1 P) * vec3.c1 N
     + (vec3.c2 Q - vec3.c2 P) * vec3.c2 N = - 0x1p60 /\
   vdot (vsub Q P) N = - 0x1p60) /\
  (let O := vec3.Make 0 0 0 in
   let D := vec3.Make 1 0 (-1 + 0x1p-40) in
   let P := vec3.Make 1 0 0 in
   let N := vec3.Make 1 0 1 in
   let Q := vec3.Make 0x1p40 0 (- 0x1p40) in
   vdot D N = 0x1p-40 /\
   ((vec3.c0 O - vec3.c0 P) * vec3.c0 N + (vec3.c1 O - vec3.c1 P) * vec3.c1 N
     + (vec3.c2 O - vec3.c2 P) * vec3.c2 N =? 0) = false /\
   intersectRayWithPlane O D P N = Some (0x1p40, Q) /\
   (vec3.c0 Q - vec3.c0 P) * vec3.c0 N + (vec3.c1 Q - vec3.c1 P) * vec3.c1 N
     + (vec3.c2 Q - vec3.c2 P) * vec3.c2 N = -1).
Proof. vm_compute. repeat split. Qed.

End Plane.

(** C6, amended.  In exact arithmetic, for a ray that is not parallel to
    the plane ([dot(D, N) <> 0]): whenever
    [intersectRayWithPlane(O, D, P, N)] returns a hit [(time, Q)], the
    point [Q] lies on the plane, [dot(Q - P, N) = 0], and
    [Q = O + D * time]. *)
Theorem intersectRayWithPlane_point_on_plane
    (O D P N : vec3.t R) (time : R) (Q : vec3.t R) :
  vdot D N <> 0%R ->
  intersectRayWithPlane O D P N = Some (time, Q) ->
  vdot (vsub Q P) N = 0%R /\ Q = vadd O (vscale D time).
Proof.
  intros Hv. rewrite intersectRayWithPlane_eq. cbv zeta.
  destruct (nle _ _); [|discriminate].
  intros [= <- <-].
  destruct O, D, P, N. revert Hv. vec_unfold. intros Hv. split.
  - field. exact Hv.
  - f_equal; ring.
Qed.

(** The ray from [(0,0,1)] along [(0,0,-1)] against the plane [z = 0]. *)
Lemma intersectRayWithPlane_point_on_plane_witness :
  (exists (time : R) (Q : vec3.t R),
     intersectRayWithPlane (vec3.Make 0 0 1) (vec3.Make 0 0 (-1))
                           (vec3.Make 0 0 0) (vec3.Make 0 0 1)
     = Some (time, Q) /\
     vdot (vsub Q (vec3.Make 0 0 0)) (vec3.Make 0 0 1) = 0 /\
     Q = vadd (vec3.Make 0 0 1) (vscale (vec3.Make 0 0 (-1)) time))%R.
Proof.
  assert (Hv : (vdot (vec3.Make 0 0 (-1)) (vec3.Make 0 0 1) <> 0)%R)
    by (vec_unfold; lra).
  destruct ((intersectRayWithPlane (vec3.Make 0 0 1) (vec3.Make 0 0 (-1))
               (vec3.Make 0 0 0) (vec3.Make 0 0 1))%R)
    as [[time Q]|] eqn:E.
  - exists time, Q. split; [reflexivity|].
    exact (@intersectRayWithPlane_point_on_plane _ _ _ _ _ _ Hv E).
  - exfalso. rewrite intersectRayWithPlane_eq in E. cbv zeta in E.
    revert E. vec_unfold. unfold Exact.leb.
    destruct (Rle_dec _ _) as [|Hn]; [discriminate|].
    intros _. apply Hn.
    replace (((0 - 0) * 0 + (0 - 0) * 0 + (0 - 1) * 1) /
             (0 * 0 + 0 * 0 + -1 * 1))%R with 1%R by field.
    lra.
Defined.

(** ** Triangle *)

Section Triangles.
Local Open Scope float_scope.

(** C2.  On binary64 with the single-precision stores of
    gl-matrix, for every ray and triangle [v0, v1, v2]: the ray is first
    intersected with the plane through [v0] whose normal is
    [cross(v1 - v0, v2 - v0)].  Without a plane hit the result is null.  With
    a plane hit [(time, point)], the result is null as soon as
    [dot(planeNormal, cross(b - a, point - a))] is negative for one of the
    edges [v0 -> v1], [v1 -> v2], [v2 -> v0], and it is the pair
    [(time, point)] of the plane intersection itself when the three
    products are non-negative.  Every difference and cross product is
    rounded to single precision, component by component, and in the edge
    tests the vertex [b] and the point are rounded to single precision
    before the start vertex [a] is subtracted ([vcopy]); the dot products
    are binary64 numbers. *)
Theorem intersectRayWithTriangle_edge_tests
    (rayStart rayDirection v0 v1 v2 : vec3.t float) :
  let planeNormal := vcross (vsub v1 v0) (vsub v2 v0) in
  let plane := intersectRayWithPlane rayStart rayDirection v0 planeNormal in
  let side a b p :=
    vdot planeNormal (vcross (vsub (vcopy b) a) (vsub (vcopy p) a)) in
  let result := intersectRayWithTriangle rayStart rayDirection (v0, v1, v2) in
  (plane = None -> result = None) /\
  (forall time point, plane = Some (time, point) ->
     ((side v0 v1 point <? 0)%float = true \/
      (side v1 v2 point <? 0)%float = true \/
      (side v2 v0 point <? 0)%float = true -> result = None) /\
     ((0 <=? side v0 v1 point)%float = true ->
      (0 <=? side v1 v2 point)%float = true ->
      (0 <=? side v2 v0 point)%float = true -> result = Some (time, point))).
Proof.
  intros planeNormal plane side result.
  pose proof (intersectRayWithTriangle_eq rayStart rayDirection v0 v1 v2) as E.
  cbv zeta in E. fold planeNormal plane result in E.
  unfold edgeSide, edgeVector in E.
  subst side; cbv beta.
  split.
  - intros Hp. now rewrite E, Hp.
  - intros time point Hp. rewrite Hp in E. split.
    + intros Hneg. rewrite E.
      change (nlt ?a (lit 0)) with (a <? 0)%float.
      destruct Hneg as [Hn|[Hn|Hn]]; rewrite Hn; simpl;
        now rewrite ?orb_true_r.
    + intros H0 H1 H2. rewrite E.
      change (nlt ?a (lit 0)) with (a <? 0)%float.
      now rewrite (F64_facts.leb_not_gt H0), (F64_facts.leb_not_gt H1),
        (F64_facts.leb_not_gt H2).
Qed.

(** A ray going down on the triangle [(0,0,0), (1,0,0), (0,1,0)] hits it at
    [(0.25, 0.25, 0)]; moved to [x = 2] it crosses the plane outside the
    edge [v1 -> v2]; going up from above the plane it has no plane hit. *)
Lemma intersectRayWithTriangle_edge_tests_witness :
  intersectRayWithTriangle
    (vec3.Make 0.25 0.25 1) (vec3.Make 0 0 (-1))
    (vec3.Make 0 0 0, vec3.Make 1 0 0, vec3.Make 0 1 0)%float
  = Some (1, vec3.Make 0.25 0.25 0)%float /\
  intersectRayWithTriangle
    (vec3.Make 2 0.25 1) (vec3.Make 0 0 (-1))
    (vec3.Make 0 0 0, vec3.Make 1 0 0, vec3.Make 0 1 0)%float
  = None /\
  intersectRayWithTriangle
    (vec3.Make 0.25 0.25 1) (vec3.Make 0 0 1)
    (vec3.Make 0 0 0, vec3.Make 1 0 0, vec3.Make 0 1 0)%float
  = None.
Proof.
  split; [|split].
  - apply (proj2 (intersectRayWithTriangle_edge_tests
                    (vec3.Make 0.25 0.25 1) (vec3.Make 0 0 (-1))
                    (vec3.Make 0 0 0) (vec3.Make 1 0 0) (vec3.Make 0 1 0))%float
                 1%float (vec3.Make 0.25 0.25 0)%float);
      vm_compute; reflexivity.
  - apply (proj1 (proj2 (intersectRayWithTriangle_edge_tests
                    (vec3.Make 2 0.25 1) (vec3.Make 0 0 (-1))
                    (vec3.Make 0 0 0) (vec3.Make 1 0 0) (vec3.Make 0 1 0))%float
                 1%float (vec3.Make 2 0.25 0)%float eq_refl)).
    right; left. vm_compute; reflexivity.
  - apply (proj1 (intersectRayWithTriangle_edge_tests
                    (vec3.Make 0.25 0.25 1) (vec3.Make 0 0 1)
                    (vec3.Make 0 0 0) (vec3.Make 1 0 0) (vec3.Make 0 1 0))%float).
    vm_compute; reflexivity.
Defined.

(** The stores at work on the triangle [(0,0,0), (1,0,0), (0,1,0)]: two
    rays that cross the plane [z = 0] on the edge [v1 -> v2], at
    [(2/3, 1/3, 0)] and at [(1/3, 2/3, 0)].  The hit point is rounded to
    single precision; the first rounded point passes the test of the edge
    and is returned, the second does not. *)
Lemma intersectRayWithTriangle_stores :
  let triangle := (vec3.Make 0 0 0, vec3.Make 1 0 0, vec3.Make 0 1 0) in
  intersectRayWithTriangle (vec3.Make 1 0 1) (vec3.Make (-1) 1 (-3)) triangle
  = Some (0.33333333333333331,
          vec3.Make 0.6666666269302368 0.3333333432674408 0) /\
  intersectRayWithTriangle (vec3.Make 0 0 1) (vec3.Make 1 2 (-3)) triangle
  = None.
Proof. vm_compute. split; reflexivity. Qed.

(** C7, as stated, fails on binary64.  The ray from [(1,-1,-0.5)] along
    [(0.25,0.25,1)] is not parallel to the plane of the triangle
    [(7,0.25,-2), (-1,5,1.5), (2,-2,1)] and meets it, at time 8/5, in the
    point [(1.4,-0.6,1.1)] of the edge [v1 -> v2].  Neither 8/5 nor the point
    is a binary64 number, and the point is stored in single precision;
    after rounding, the edge product is not negative when the edge is
    walked from [v1] and negative when it is walked from [v2]: a hit in the
    given order, null in the reversed order. *)
Lemma intersectRayWithTriangle_winding_differs :
  let rayStart := vec3.Make 1 (-1) (-0.5) in
  let rayDirection := vec3.Make 0.25 0.25 1 in
  let v0 := vec3.Make 7 0.25 (-2) in
  let v1 := vec3.Make (-1) 5 1.5 in
  let v2 := vec3.Make 2 (-2) 1 in
  (vdot rayDirection (vcross (vsub v1 v0) (vsub v2 v0)) =? 0) = false /\
  intersectRayWithTriangle rayStart rayDirection (v0, v1, v2)
  = Some (1.6, vec3.Make 1.399999976158142 (-0.6000000238418579)
                         1.100000023841858) /\
  intersectRayWithTriangle rayStart rayDirection (v2, v1, v0) = None /\
  intersectRayWithTriangle rayStart rayDirection (v0, v1, v2) <>
  intersectRayWithTriangle rayStart rayDirection (v2, v1, v0).
Proof. vm_compute. repeat split. discriminate. Qed.

(** The two orders are also separated by a ray parallel to the plane of the
    triangle, through the division by zero of the plane routine: the ray
    from [(0,0,-1)] along [(1,0,0)] and the triangle
    [(0,0,0), (1,0,0), (0,1,0)] give the time [1 / 0 = Infinity] and a hit in
    the given order, the time [-1 / 0 = -Infinity] and null in the reversed
    order. *)
Lemma intersectRayWithTriangle_winding_parallel :
  let rayStart := vec3.Make 0 0 (-1) in
  let rayDirection := vec3.Make 1 0 0 in
  let v0 := vec3.Make 0 0 0 in
  let v1 := vec3.Make 1 0 0 in
  let v2 := vec3.Make 0 1 0 in
  intersectRayWithTriangle rayStart rayDirection (v0, v1, v2)
  = Some (infinity, vec3.Make infinity nan nan) /\
  intersectRayWithTriangle rayStart rayDirection (v2, v1, v0) = None.
Proof. vm_compute. split; reflexivity. Qed.

End Triangles.

(** C7, amended.  In exact arithmetic, for a ray that is not parallel to the
    plane of the triangle, reversing the order of the vertices changes
    neither the outcome nor, on a hit, the time and the point. *)
Theorem intersectRayWithTriangle_winding_exact
    (rayStart rayDirection v0 v1 v2 : vec3.t R) :
  vdot rayDirection (vcross (vsub v1 v0) (vsub v2 v0)) <> 0%R ->
  intersectRayWithTriangle rayStart rayDirection (v0, v1, v2) =
  intersectRayWithTriangle rayStart rayDirection (v2, v1, v0).
Proof.
  intros Hv.
  rewrite !intersectRayWithTriangle_eq; cbv zeta.
  rewrite (exact_reversed_normal v0 v1 v2).
  set (n := vcross (vsub v1 v0) (vsub v2 v0)) in *.
  rewrite (exact_plane_flip rayStart Hv (exact_edge_in_plane v0 v1 v2)).
  destruct (intersectRayWithPlane rayStart rayDirection v0 n)
    as [[time point]|]; [|reflexivity].
  rewrite !exact_edgeSide_reversed.
  destruct (nlt (edgeSide n v0 v1 point) (lit 0)),
           (nlt (edgeSide n v1 v2 point) (lit 0)),
           (nlt (edgeSide n v2 v0 point) (lit 0)); reflexivity.
Qed.

(** The ray from [(1/4, 1/4, 1)] along [(0,0,-1)] and the triangle
    [(0,0,0), (1,0,0), (0,1,0)]. *)
Lemma intersectRayWithTriangle_winding_exact_witness :
  (intersectRayWithTriangle
     (vec3.Make (1/4) (1/4) 1) (vec3.Make 0 0 (-1))
     (vec3.Make 0 0 0, vec3.Make 1 0 0, vec3.Make 0 1 0) =
   intersectRayWithTriangle
     (vec3.Make (1/4) (1/4) 1) (vec3.Make 0 0 (-1))
     (vec3.Make 0 1 0, vec3.Make 1 0 0, vec3.Make 0 0 0))%R.
Proof.
  apply intersectRayWithTriangle_winding_exact.
  vec_unfold. lra.
Defined.

(** ** Axis-aligned bounding box *)

(** C4.  For every origin, direction and box, with
    [tMin_i = (box.min[i] - origin[i]) / direction[i]] and
    [tMax_i = (box.max[i] - origin[i]) / direction[i]],
    [tmin] the Math.max over the three axes of [Math.min(tMin_i, tMax_i)] and
    [tmax] the Math.min over the three axes of [Math.max(tMin_i, tMax_i)],
    [intersectRayWithAABB] returns null exactly when [tmax < 0] or
    [tmin > tmax], and the bare number [tmin] otherwise.  This holds for
    every implementation of numbers, binary64 included. *)
Theorem intersectRayWithAABB_slab_method
    (num : Type) (N : Number num)
    (origin direction : vec3.t num) (box : BoundingBox.t num) :
  let tMin i :=
    ((vec3.get (BoundingBox.min box) i - vec3.get origin i) / vec3.get direction i)%js in
  let tMax i :=
    ((vec3.get (BoundingBox.max box) i - vec3.get origin i) / vec3.get direction i)%js in
  let tmin :=
    nmax (nmax (nmin (tMin 0%nat) (tMax 0%nat)) (nmin (tMin 1%nat) (tMax 1%nat)))
         (nmin (tMin 2%nat) (tMax 2%nat)) in
  let tmax :=
    nmin (nmin (nmax (tMin 0%nat) (tMax 0%nat)) (nmax (tMin 1%nat) (tMax 1%nat)))
         (nmax (tMin 2%nat) (tMax 2%nat)) in
  intersectRayWithAABB origin direction box =
  if ((tmax <? lit 0) || (tmin >? tmax))%js then None else Some tmin.
Proof.
  intros tMin tMax tmin tmax. apply intersectRayWithAABB_eq.
Qed.

Section Slabs.
Local Open Scope float_scope.

Variables (origin direction : vec3.t float) (box : BoundingBox.t float).

Let tMin := axisMin origin direction box.
Let tMax := axisMax origin direction box.
Let near := axisNear origin direction box.
Let far := axisFar origin direction box.

(** A ray that runs along the slab of axis [i], strictly between its two
    planes, enters it at [-Infinity] and leaves it at [Infinity]. *)
Lemma axis_inside (i : nat) :
  (vec3.get direction i =? 0) = true ->
  (vec3.get (BoundingBox.min box) i - vec3.get origin i <? 0) = true ->
  (0 <? vec3.get (BoundingBox.max box) i - vec3.get origin i) = true ->
  near i = neg_infinity /\ far i = infinity.
Proof.
  intros Hd Hlo Hhi. destruct (@F64_facts.eqb_zero _ Hd) as [s Hs].
  unfold near, far, axisNear, axisFar, axisMin, axisMax.
  change (@ndiv float float64) with PrimFloat.div.
  change (@nsub float float64) with PrimFloat.sub.
  rewrite (@F64_facts.div_negative_by_zero _ _ _ Hlo Hs),
    (@F64_facts.div_positive_by_zero _ _ _ Hhi Hs).
  now destruct s.
Qed.

(** A ray that runs along the slab of axis [i], strictly on one side of its
    two planes, crosses both at the same infinity. *)
Lemma axis_outside (i : nat) :
  (vec3.get direction i =? 0) = true ->
  ((vec3.get (BoundingBox.min box) i - vec3.get origin i <? 0) = true /\
   (vec3.get (BoundingBox.max box) i - vec3.get origin i <? 0) = true) \/
  ((0 <? vec3.get (BoundingBox.min box) i - vec3.get origin i) = true /\
   (0 <? vec3.get (BoundingBox.max box) i - vec3.get origin i) = true) ->
  (tMin i = infinity /\ tMax i = infinity /\
   near i = infinity /\ far i = infinity) \/
  (tMin i = neg_infinity /\ tMax i = neg_infinity /\
   near i = neg_infinity /\ far i = neg_infinity).
Proof.
  intros Hd Hside. destruct (@F64_facts.eqb_zero _ Hd) as [s Hs].
  unfold near, far, tMin, tMax, axisNear, axisFar, axisMin, axisMax.
  change (@ndiv float float64) with PrimFloat.div.
  change (@nsub float float64) with PrimFloat.sub.
  destruct Hside as [[Hlo Hhi] | [Hlo Hhi]].
  - rewrite (@F64_facts.div_negative_by_zero _ _ _ Hlo Hs),
      (@F64_facts.div_negative_by_zero _ _ _ Hhi Hs).
    destruct s; [left | right]; now repeat split.
  - rewrite (@F64_facts.div_positive_by_zero _ _ _ Hlo Hs),
      (@F64_facts.div_positive_by_zero _ _ _ Hhi Hs).
    destruct s; [right | left]; now repeat split.
Qed.

(** The slab of an axis along which the ray runs strictly inside places no
    constraint: the result is that of the two other slabs. *)
Lemma aabb_inside (i : nat) :
  (i < 3)%nat ->
  near i = neg_infinity -> far i = infinity ->
  intersectRayWithAABB origin direction box =
  slabTest (F64.max (near (fst (otherAxes i))) (near (snd (otherAxes i))))
           (F64.min (far (fst (otherAxes i))) (far (snd (otherAxes i)))).
Proof.
  intros Hi Hn Hf. rewrite intersectRayWithAABB_axes. fold near far.
  change (@nmax float float64) with F64.max.
  change (@nmin float float64) with F64.min.
  destruct i as [|[|[|i]]]; [| | |lia]; simpl otherAxes; simpl fst; simpl snd;
    rewrite Hn, Hf;
    now rewrite ?F64_facts.max_neg_infinity_l, ?F64_facts.max_neg_infinity_r,
      ?F64_facts.min_infinity_l, ?F64_facts.min_infinity_r.
Qed.

(** A slab that the ray misses for good makes the whole test fail, as long
    as the two other slabs give numbers and one of them is left at a finite
    time. *)
Lemma aabb_outside (i : nat) :
  (i < 3)%nat ->
  (near i = infinity /\ far i = infinity) \/
  (near i = neg_infinity /\ far i = neg_infinity) ->
  is_nan (near (fst (otherAxes i))) = false ->
  is_nan (far (fst (otherAxes i))) = false ->
  is_nan (near (snd (otherAxes i))) = false ->
  is_nan (far (snd (otherAxes i))) = false ->
  (F64.min (far (fst (otherAxes i))) (far (snd (otherAxes i))) <? infinity) = true ->
  intersectRayWithAABB origin direction box = None.
Proof.
  intros Hi Hside Hnj Hfj Hnk Hfk Hfin.
  rewrite intersectRayWithAABB_axes. fold near far.
  change (@nmax float float64) with F64.max.
  change (@nmin float float64) with F64.min.
  unfold slabTest.
  change (@nlt float float64) with PrimFloat.ltb.
  change (@lit float float64 0) with 0.
  destruct Hside as [[Hn Hf] | [Hn Hf]];
    destruct i as [|[|[|i]]]; try lia;
    simpl otherAxes in *; simpl fst in *; simpl snd in *;
    rewrite Hn, Hf.
  - rewrite F64_facts.min_infinity_l, (@F64_facts.max_infinity_l _ Hnj),
      (@F64_facts.max_infinity_l _ Hnk), Hfin. now rewrite orb_true_r.
  - rewrite F64_facts.min_infinity_r, (@F64_facts.max_infinity_r _ Hnj),
      (@F64_facts.max_infinity_l _ Hnk), Hfin. now rewrite orb_true_r.
  - rewrite F64_facts.min_infinity_r,
      (@F64_facts.max_infinity_r _ (@F64_facts.max_not_nan _ _ Hnj Hnk)), Hfin.
    now rewrite orb_true_r.
  - now rewrite (@F64_facts.min_neg_infinity_l _ Hfj),
      (@F64_facts.min_neg_infinity_l _ Hfk).
  - now rewrite (@F64_facts.min_neg_infinity_r _ Hfj),
      (@F64_facts.min_neg_infinity_l _ Hfk).
  - now rewrite (F64_facts.min_neg_infinity_r _
                   (@F64_facts.min_not_nan _ _ Hfj Hfk)).
Qed.

End Slabs.

Section ZeroDirection.
Local Open Scope float_scope.

(** C9, as stated, fails when the origin lies on a plane of the slab.  For
    the box [(0,0,0)-(1,1,1)], the origin [(0, 5, -5)] and the direction
    [(0,0,1)], the first direction component is zero and the division
    [(0 - 0) / 0] is NaN, not an infinity.  NaN goes through Math.min and
    Math.max into [tmin] and [tmax], both comparisons are false, and the
    routine returns NaN instead of null although the ray passes the box at
    [y = 5], outside of it. *)
Lemma intersectRayWithAABB_origin_on_slab_plane :
  let box := BoundingBox.Make (vec3.Make 0 0 0) (vec3.Make 1 1 1) in
  let origin := vec3.Make 0 5 (-5) in
  let direction := vec3.Make 0 0 1 in
  vec3.get direction 0 = 0 /\
  axisMin origin direction box 0 = nan /\
  is_infinity (axisMin origin direction box 0) = false /\
  intersectRayWithAABB origin direction box = Some nan /\
  intersectRayWithAABB origin direction box <> None.
Proof. vm_compute. repeat split. discriminate. Qed.

(** C9, amended.  Let the direction component of axis [i] be zero ([+0] or
    [-0]).
    - If the origin lies strictly between the two planes of the slab
      ([box.min[i] - origin[i] < 0 < box.max[i] - origin[i]]), the two
      divisions give [-Infinity] and [Infinity], Math.min and Math.max of
      them are [-Infinity] and [Infinity], and the result of the routine is
      the result of the test on the two other axes alone.
    - If the origin lies strictly on one side of both planes, the two
      divisions give the same infinity and the routine returns null,
      provided the four quotients of the two other axes are not NaN and the
      ray leaves one of these two slabs at a time below [Infinity].
    - For the box [(0,0,0)-(1,1,1)] and the direction [(0,0,1)], the origin
      [(0.5, 0.5, -5)] gives the time 5 and the origin [(0.5, 0.5, 5)] gives
      null. *)
Theorem intersectRayWithAABB_zero_direction :
  (forall (origin direction : vec3.t float) (box : BoundingBox.t float) (i : nat),
     (i < 3)%nat ->
     (vec3.get direction i =? 0) = true ->
     (vec3.get (BoundingBox.min box) i - vec3.get origin i <? 0) = true ->
     (0 <? vec3.get (BoundingBox.max box) i - vec3.get origin i) = true ->
     let j := fst (otherAxes i) in
     let k := snd (otherAxes i) in
     is_infinity (axisMin origin direction box i) = true /\
     is_infinity (axisMax origin direction box i) = true /\
     axisNear origin direction box i = neg_infinity /\
     axisFar origin direction box i = infinity /\
     intersectRayWithAABB origin direction box =
     slabTest
       (F64.max (axisNear origin direction box j) (axisNear origin direction box k))
       (F64.min (axisFar origin direction box j) (axisFar origin direction box k))) /\
  (forall (origin direction : vec3.t float) (box : BoundingBox.t float) (i : nat),
     (i < 3)%nat ->
     (vec3.get direction i =? 0) = true ->
     ((vec3.get (BoundingBox.min box) i - vec3.get origin i <? 0) = true /\
      (vec3.get (BoundingBox.max box) i - vec3.get origin i <? 0) = true) \/
     ((0 <? vec3.get (BoundingBox.min box) i - vec3.get origin i) = true /\
      (0 <? vec3.get (BoundingBox.max box) i - vec3.get origin i) = true) ->
     let j := fst (otherAxes i) in
     let k := snd (otherAxes i) in
     is_nan (axisMin origin direction box j) = false ->
     is_nan (axisMax origin direction box j) = false ->
     is_nan (axisMin origin direction box k) = false ->
     is_nan (axisMax origin direction box k) = false ->
     (F64.min (axisFar origin direction box j) (axisFar origin direction box k)
        <? infinity) = true ->
     is_infinity (axisMin origin direction box i) = true /\
     axisMax origin direction box i = axisMin origin direction box i /\
     intersectRayWithAABB origin direction box = None) /\
  intersectRayWithAABB (vec3.Make 0.5 0.5 (-5)) (vec3.Make 0 0 1)
    (BoundingBox.Make (vec3.Make 0 0 0) (vec3.Make 1 1 1)) = Some 5 /\
  intersectRayWithAABB (vec3.Make 0.5 0.5 5) (vec3.Make 0 0 1)
    (BoundingBox.Make (vec3.Make 0 0 0) (vec3.Make 1 1 1)) = None.
Proof.
  split; [|split; [|split]].
  - intros origin direction box i Hi Hd Hlo Hhi j k.
    destruct (axis_inside origin direction box i Hd Hlo Hhi) as [Hn Hf].
    destruct (@F64_facts.eqb_zero _ Hd) as [s Hs].
    repeat split; try assumption.
    + unfold axisMin.
      change (@ndiv float float64) with PrimFloat.div.
      change (@nsub float float64) with PrimFloat.sub.
      rewrite (@F64_facts.div_negative_by_zero _ _ _ Hlo Hs). now destruct s.
    + unfold axisMax.
      change (@ndiv float float64) with PrimFloat.div.
      change (@nsub float float64) with PrimFloat.sub.
      rewrite (@F64_facts.div_positive_by_zero _ _ _ Hhi Hs). now destruct s.
    + now apply aabb_inside.
  - intros origin direction box i Hi Hd Hside j k Hnj Hxj Hnk Hxk Hfin.
    destruct (axis_outside origin direction box i Hd Hside)
      as [(Hmin & Hmax & Hn & Hf) | (Hmin & Hmax & Hn & Hf)];
      rewrite Hmin, Hmax; (split; [reflexivity|]; split; [reflexivity|]);
      apply (aabb_outside origin direction box Hi); auto;
      solve [ apply F64_facts.min_not_nan; assumption
            | apply F64_facts.max_not_nan; assumption ].
  - vm_compute; reflexivity.
  - vm_compute; reflexivity.
Qed.

(** The first example has a zero first direction component with the origin
    inside the slab; moving its origin to [x = 5] puts it outside. *)
Lemma intersectRayWithAABB_zero_direction_witness :
  let box := BoundingBox.Make (vec3.Make 0 0 0) (vec3.Make 1 1 1) in
  (axisNear (vec3.Make 0.5 0.5 (-5)) (vec3.Make 0 0 1) box 0 = neg_infinity /\
   axisFar (vec3.Make 0.5 0.5 (-5)) (vec3.Make 0 0 1) box 0 = infinity /\
   intersectRayWithAABB (vec3.Make 0.5 0.5 (-5)) (vec3.Make 0 0 1) box =
   slabTest
     (F64.max (axisNear (vec3.Make 0.5 0.5 (-5)) (vec3.Make 0 0 1) box 1)
              (axisNear (vec3.Make 0.5 0.5 (-5)) (vec3.Make 0 0 1) box 2))
     (F64.min (axisFar (vec3.Make 0.5 0.5 (-5)) (vec3.Make 0 0 1) box 1)
              (axisFar (vec3.Make 0.5 0.5 (-5)) (vec3.Make 0 0 1) box 2))) /\
  intersectRayWithAABB (vec3.Make 5 0.5 (-5)) (vec3.Make 0 0 1) box = None.
Proof.
  intros box. split.
  - apply (proj1 intersectRayWithAABB_zero_direction
             (vec3.Make 0.5 0.5 (-5)) (vec3.Make 0 0 1) box 0%nat);
      [lia | vm_compute; reflexivity ..].
  - apply (proj1 (proj2 intersectRayWithAABB_zero_direction)
             (vec3.Make 5 0.5 (-5)) (vec3.Make 0 0 1) box 0%nat);
      [lia | vm_compute; reflexivity | left; split; vm_compute; reflexivity
      | vm_compute; reflexivity ..].
Defined.

End ZeroDirection.

(** ** Quad *)

Section Quads.
Local Open Scope float_scope.

(** C3.  On binary64 with the single-precision stores of gl-matrix, for
    every ray and quad [v0, v1, v2, v3]: the plane normal is
    [cross(v2 - v1, v0 - v1)] and the ray is intersected with the plane
    through [v0].  With a plane hit [(time, point)],
    [t1 = dot(point - v0, v1 - v0) / dot(v1 - v0, v1 - v0)] and
    [t2 = dot(point - v1, v2 - v1) / dot(v2 - v1, v2 - v1)]: the result is
    null when [t1 < 0] or [t1 > 1], null when [t2 < 0] or [t2 > 1], and the
    pair [(time, point)] of the plane intersection when both parameters lie
    in [[0, 1]].  Without a plane hit the result is null.  Every difference
    and the cross product are rounded to single precision, component by
    component; the dot products and the two parameters are binary64
    numbers. *)
Theorem intersectRayWithQuad_projection_tests
    (rayStart rayDirection v0 v1 v2 v3 : vec3.t float) :
  let planeNormal := vcross (vsub v2 v1) (vsub v0 v1) in
  let plane := intersectRayWithPlane rayStart rayDirection v0 planeNormal in
  let parameter p a b :=
    (vdot (vsub p a) (vsub b a) / vdot (vsub b a) (vsub b a))%float in
  let result := intersectRayWithQuad rayStart rayDirection (v0, v1, v2, v3) in
  (plane = None -> result = None) /\
  (forall time point, plane = Some (time, point) ->
     let t1 := parameter point v0 v1 in
     let t2 := parameter point v1 v2 in
     ((t1 <? 0)%float = true \/ (1 <? t1)%float = true -> result = None) /\
     ((t2 <? 0)%float = true \/ (1 <? t2)%float = true -> result = None) /\
     ((0 <=? t1)%float = true -> (t1 <=? 1)%float = true ->
      (0 <=? t2)%float = true -> (t2 <=? 1)%float = true ->
      result = Some (time, point))).
Proof.
  intros planeNormal plane parameter result.
  pose proof (intersectRayWithQuad_eq rayStart rayDirection v0 v1 v2 v3) as E.
  cbv zeta in E. fold planeNormal plane result in E. unfold edgeParameter in E.
  change (@ndiv float float64) with PrimFloat.div in E.
  subst parameter; cbv beta.
  split.
  - intros Hp. now rewrite E, Hp.
  - intros time point Hp t1 t2. rewrite Hp in E.
    fold t1 t2 in E.
    change (nlt ?a (lit 0)) with (a <? 0)%float in E.
    change (nlt (lit 1) ?a) with (1 <? a)%float in E.
    split; [|split].
    + intros [Hn|Hn]; rewrite E, Hn; simpl; now rewrite ?orb_true_r.
    + intros Hn. rewrite E.
      destruct ((t1 <? 0)%float || (1 <? t1)%float); [reflexivity|].
      destruct Hn as [Hn|Hn]; rewrite Hn; simpl; now rewrite ?orb_true_r.
    + intros H0 H1 H2 H3. rewrite E.
      now rewrite (F64_facts.leb_not_gt H0), (F64_facts.leb_not_gt H1),
        (F64_facts.leb_not_gt H2), (F64_facts.leb_not_gt H3).
Qed.

(** On the unit square of the plane [z = 0], the ray from [(0.5, 0.5, 1)]
    towards [(0.5, 0.5, 0)] hits at time 1; the ray towards [(1.5, 0.5, 0)]
    meets the plane at [t1 = 1.5] and misses; the ray towards
    [(0.5, 1.5, 0)] meets it at [t2 = 1.5] and misses; a ray going up has no
    plane hit. *)
Lemma intersectRayWithQuad_projection_tests_witness :
  let square :=
    (vec3.Make 0 0 0, vec3.Make 1 0 0, vec3.Make 1 1 0, vec3.Make 0 1 0)%float in
  intersectRayWithQuad (vec3.Make 0.5 0.5 1) (vec3.Make 0 0 (-1)) square
  = Some (1, vec3.Make 0.5 0.5 0)%float /\
  intersectRayWithQuad (vec3.Make 0.5 0.5 1) (vec3.Make 1 0 (-1)) square
  = None /\
  intersectRayWithQuad (vec3.Make 0.5 0.5 1) (vec3.Make 0 1 (-1)) square
  = None /\
  intersectRayWithQuad (vec3.Make 0.5 0.5 1) (vec3.Make 0 0 1) square
  = None.
Proof.
  intros square. split; [|split; [|split]].
  - apply (proj2 (proj2 (proj2 (intersectRayWithQuad_projection_tests
                    (vec3.Make 0.5 0.5 1) (vec3.Make 0 0 (-1))
                    (vec3.Make 0 0 0) (vec3.Make 1 0 0) (vec3.Make 1 1 0)
                    (vec3.Make 0 1 0))%float
                 1%float (vec3.Make 0.5 0.5 0)%float eq_refl)));
      vm_compute; reflexivity.
  - apply (proj1 (proj2 (intersectRayWithQuad_projection_tests
                    (vec3.Make 0.5 0.5 1) (vec3.Make 1 0 (-1))
                    (vec3.Make 0 0 0) (vec3.Make 1 0 0) (vec3.Make 1 1 0)
                    (vec3.Make 0 1 0))%float
                 1%float (vec3.Make 1.5 0.5 0)%float eq_refl)).
    right. vm_compute; reflexivity.
  - apply (proj1 (proj2 (proj2 (intersectRayWithQuad_projection_tests
                    (vec3.Make 0.5 0.5 1) (vec3.Make 0 1 (-1))
                    (vec3.Make 0 0 0) (vec3.Make 1 0 0) (vec3.Make 1 1 0)
                    (vec3.Make 0 1 0))%float
                 1%float (vec3.Make 0.5 1.5 0)%float eq_refl))).
    right. vm_compute; reflexivity.
  - apply (proj1 (intersectRayWithQuad_projection_tests
                    (vec3.Make 0.5 0.5 1) (vec3.Make 0 0 1)
                    (vec3.Make 0 0 0) (vec3.Make 1 0 0) (vec3.Make 1 1 0)
                    (vec3.Make 0 1 0))%float).
    vm_compute; reflexivity.
Defined.

(** The stores at work on the square [(0,0,0), (1,1,0), (2,0,0), (1,-1,0)]:
    a ray that crosses the plane [z = 0] at [(1/3, -1/3, 0)], where
    [t1 = 0], and one that crosses it at [(4/3, -2/3, 0)], where [t2 = 1].
    The hit point is rounded to single precision; the first rounded point
    has its parameters in [[0, 1]] and is returned, the second has
    [t2 > 1]. *)
Lemma intersectRayWithQuad_stores :
  let square :=
    (vec3.Make 0 0 0, vec3.Make 1 1 0, vec3.Make 2 0 0, vec3.Make 1 (-1) 0) in
  intersectRayWithQuad (vec3.Make 0 (-1) 1) (vec3.Make 1 2 (-3)) square
  = Some (0.33333333333333331,
          vec3.Make 0.3333333432674408 (-0.3333333134651184) 0) /\
  intersectRayWithQuad (vec3.Make 0 0 2) (vec3.Make 2 (-1) (-3)) square
  = None.
Proof. vm_compute. split; reflexivity. Qed.

(** C10.  The fourth vertex of the quad is never read: two quads that share
    their first three vertices give the same result, whatever their fourth
    vertices are. *)
Theorem intersectRayWithQuad_ignores_fourth_vertex
    (num : Type) (N : Number num)
    (rayStart rayDirection v0 v1 v2 v3 v3' : vec3.t num) :
  intersectRayWithQuad rayStart rayDirection (v0, v1, v2, v3) =
  intersectRayWithQuad rayStart rayDirection (v0, v1, v2, v3').
Proof. reflexivity. Qed.

End Quads.

(** ** Ray construction *)

Section RayConstruction.

Lemma projectMouseToWorldSpace_eq
    (num : Type) (N : Number num)
    (mouse : vec2.t num) (camera : PerspectiveCamera num) (rayScale : num) :
  let ray := projectMouseToWorldSpace mouse camera (Some rayScale) in
  rayStart ray = vcopy (position camera) /\
  rayEnd ray =
    vadd (rayStart ray) (vscale (vnormalize (worldDirection mouse camera)) rayScale) /\
  rayDirection ray = vsub (rayEnd ray) (rayStart ray).
Proof.
  unfold projectMouseToWorldSpace. destruct (position camera). simpl.
  repeat split.
Qed.

Lemma projectMouseToWorldSpace_default
    (num : Type) (N : Number num)
    (mouse : vec2.t num) (camera : PerspectiveCamera num) :
  projectMouseToWorldSpace mouse camera None =
  projectMouseToWorldSpace mouse camera (Some (lit 999)).
Proof. reflexivity. Qed.

Lemma exact_sum_squares_pos (x y z : R) :
  vec3.Make x y z <> vec3.Make 0%R 0%R 0%R -> (0 < x * x + y * y + z * z)%R.
Proof.
  intros Hne.
  destruct (Req_dec_T x 0) as [-> | Hx]; [|nra].
  destruct (Req_dec_T y 0) as [-> | Hy]; [|nra].
  destruct (Req_dec_T z 0) as [-> | Hz]; [|nra].
  now elim Hne.
Qed.

Lemma exact_magnitude_scaled_unit (p w : vec3.t R) (s : R) :
  w <> vec3.Make 0%R 0%R 0%R ->
  magnitude (vsub (vadd p (vscale (vnormalize w) s)) p) = Rabs s.
Proof.
  destruct w as [x y z], p as [p0 p1 p2]. intros Hne.
  pose proof (exact_sum_squares_pos Hne) as Hlen.
  vec_unfold.
  rewrite (proj2 (exact_ltb_true 0 (x * x + y * y + z * z)) Hlen).
  set (len := (x * x + y * y + z * z)%R) in *.
  assert (Hk : (0 < sqrt len)%R) by now apply sqrt_lt_R0.
  assert (Hkk : (sqrt len * sqrt len = len)%R) by (apply sqrt_sqrt; lra).
  set (k := sqrt len) in *.
  replace ((p0 + x * (1 / k) * s - p0) * (p0 + x * (1 / k) * s - p0) +
           (p1 + y * (1 / k) * s - p1) * (p1 + y * (1 / k) * s - p1) +
           (p2 + z * (1 / k) * s - p2) * (p2 + z * (1 / k) * s - p2))%R
    with (Rsqr s * (len / (k * k)))%R
    by (unfold Rsqr, len; field; lra).
  rewrite Hkk.
  replace (len / len)%R with 1%R by (field; lra).
  rewrite Rmult_1_r. apply sqrt_Rsqr_abs.
Qed.

(** A negative [rayScale] is accepted: the direction is then opposite to
    the view direction and its magnitude is the absolute value of
    [rayScale].  The camera has the perspective projection of a 90-degree
    field of view with near plane 1 and far plane 2 (determinant -4), the
    identity as inverse view matrix, and sits at the origin.  For the
    pointer at the centre and [rayScale = -1] the ray direction is
    [(0,0,1)], of magnitude 1. *)
Lemma projectMouseToWorldSpace_negative_scale :
  let camera :=
    {| projectionMatrix :=
         (mat4.Make 1 0 0 0  0 1 0 0  0 0 (-3) (-1)  0 0 (-4) 0)%float;
       viewMatrixInverse := mat4.create;
       position := (vec3.Make 0 0 0)%float |} in
  let ray := projectMouseToWorldSpace (vec2.Make 0 0)%float camera (Some (-1)%float) in
  (mat4.determinant (projectionMatrix camera) = -4)%float /\
  truthy (mat4.determinant (projectionMatrix camera)) = true /\
  rayDirection ray = (vec3.Make 0 0 1)%float /\
  (magnitude (rayDirection ray) = 1)%float.
Proof. vm_compute. repeat split. Qed.

(** C5, as stated, fails on binary64.  The camera has the same invertible
    projection (determinant -4) and the identity as inverse view matrix,
    and sits at [(0.1, 0, 2^40)]; the pointer is at the centre, so the
    world-space direction is [(0,0,-1)].
    - [rayStart] is not the position of the camera: its first component is
      0.1 rounded to single precision, 0.10000000149011612.
    - With [rayScale = 1], and with the default 999 as well, [rayEnd] is
      [rayStart]: the sum [2^40 - rayScale] rounds back to [2^40] when it is
      stored.  Hence [rayDirection] is [(0,0,0)] and its magnitude is 0,
      at distance 1 from [rayScale = 1] and 999 from the default. *)
Lemma projectMouseToWorldSpace_cancellation :
  let camera :=
    {| projectionMatrix :=
         (mat4.Make 1 0 0 0  0 1 0 0  0 0 (-3) (-1)  0 0 (-4) 0)%float;
       viewMatrixInverse := mat4.create;
       position := (vec3.Make 0.1 0 0x1p40)%float |} in
  let ray := projectMouseToWorldSpace (vec2.Make 0 0)%float camera (Some 1%float) in
  let ray999 := projectMouseToWorldSpace (vec2.Make 0 0)%float camera None in
  (mat4.determinant (projectionMatrix camera) = -4)%float /\
  truthy (mat4.determinant (projectionMatrix camera)) = true /\
  worldDirection (vec2.Make 0 0)%float camera = (vec3.Make 0 0 (-1))%float /\
  rayStart ray = (vec3.Make 0.10000000149011612 0 0x1p40)%float /\
  rayStart ray <> position camera /\
  rayEnd ray = rayStart ray /\
  rayDirection ray = (vec3.Make 0 0 0)%float /\
  (magnitude (rayDirection ray) = 0)%float /\
  rayDirection ray999 = (vec3.Make 0 0 0)%float /\
  (magnitude (rayDirection ray999) = 0)%float.
Proof. vm_compute. repeat split. discriminate. Qed.

(** C5, amended.  For every pointer coordinate, camera and [rayScale], on
    binary64 with the single-precision stores of gl-matrix: [rayStart] is
    the position of the camera rounded to single precision, [rayEnd] is
    [rayStart + normalize(worldDirection) * rayScale] and [rayDirection] is
    [rayEnd - rayStart], each sum, product and difference being rounded to
    single precision when it is stored.  In exact arithmetic, when the
    world-space direction is not the zero vector, [rayStart] is the
    position of the camera and the magnitude of [rayDirection] is the
    absolute value of [rayScale]. *)
Theorem projectMouseToWorldSpace_ray :
  (forall (mouse : vec2.t float) (camera : PerspectiveCamera float)
          (rayScale : float),
     let ray := projectMouseToWorldSpace mouse camera (Some rayScale) in
     rayStart ray = vcopy (position camera) /\
     rayEnd ray =
       vadd (rayStart ray)
            (vscale (vnormalize (worldDirection mouse camera)) rayScale) /\
     rayDirection ray = vsub (rayEnd ray) (rayStart ray)) /\
  (forall (mouse : vec2.t R) (camera : PerspectiveCamera R) (rayScale : R),
     worldDirection mouse camera <> vec3.Make 0%R 0%R 0%R ->
     let ray := projectMouseToWorldSpace mouse camera (Some rayScale) in
     rayStart ray = position camera /\
     magnitude (rayDirection ray) = Rabs rayScale).
Proof.
  split.
  - intros mouse camera rayScale. apply projectMouseToWorldSpace_eq.
  - intros mouse camera rayScale Hw ray.
    destruct (@projectMouseToWorldSpace_eq R exact mouse camera rayScale)
      as (Hs & He & Hd).
    fold ray in Hs, He, Hd.
    assert (Hp : rayStart ray = position camera)
      by (rewrite Hs; now destruct (position camera)).
    split; [exact Hp|].
    rewrite Hd, He.
    now apply exact_magnitude_scaled_unit.
Qed.

(** The camera at [(1,2,3)] with identity matrices, the pointer at the
    centre and [rayScale = 2]. *)
Lemma projectMouseToWorldSpace_ray_witness :
  let ray :=
    projectMouseToWorldSpace
      (vec2.Make 0 0)%R
      {| projectionMatrix := mat4.create;
         viewMatrixInverse := mat4.create;
         position := (vec3.Make 1 2 3)%R |}
      (Some 2%R) in
  rayStart ray = (vec3.Make 1 2 3)%R /\
  magnitude (rayDirection ray) = Rabs 2.
Proof.
  apply (proj2 projectMouseToWorldSpace_ray).
  intros H. apply (f_equal (@vec3.c2 R)) in H. revert H.
  unfold worldDirection, vec4.transformMat4, vec4.set2, vec4.set3,
    vec4.fromValues, vec3.fromValues; simpl.
  lra.
Defined.

End RayConstruction.

(** * Further properties

    The scalar helpers of the module ([clamp], [mapNumberRange],
    [isPowerOf2], [normalizeNumber], [triangleWave], [deg2Rad],
    [rad2Deg]), and what the intersection routines compute on degenerate
    inputs and in exact arithmetic. *)

(** ** More facts about binary64 *)

Module F64_degenerate.
Local Open Scope float_scope.

Lemma sub_diag_degenerate (x : float) : zeroOrNaN (x - x).
Proof.
  unfold zeroOrNaN. rewrite sub_spec.
  destruct (Prim2SF x) as [s|s| |s m e]; try (now destruct s); try reflexivity.
  unfold SF64sub, SFsub. now rewrite Z.sub_diag.
Qed.

Lemma mul_degenerate_l (x y : float) : zeroOrNaN x -> zeroOrNaN (x * y).
Proof.
  unfold zeroOrNaN. rewrite mul_spec.
  destruct (Prim2SF x) as [s|s| |s m e]; try discriminate;
    now destruct (Prim2SF y).
Qed.

Lemma mul_degenerate_r (x y : float) : zeroOrNaN y -> zeroOrNaN (x * y).
Proof.
  unfold zeroOrNaN. rewrite mul_spec.
  destruct (Prim2SF y) as [s|s| |s m e]; try discriminate;
    now destruct (Prim2SF x).
Qed.

Lemma add_degenerate (x y : float) :
  zeroOrNaN x -> zeroOrNaN y -> zeroOrNaN (x + y).
Proof.
  unfold zeroOrNaN. rewrite add_spec.
  destruct (Prim2SF x) as [s|s| |s m e]; try discriminate;
    destruct (Prim2SF y) as [s'|s'| |s' m' e']; try discriminate;
    try reflexivity; intros _ _; now destruct s, s'.
Qed.

Lemma sub_degenerate (x y : float) :
  zeroOrNaN x -> zeroOrNaN y -> zeroOrNaN (x - y).
Proof.
  unfold zeroOrNaN. rewrite sub_spec.
  destruct (Prim2SF x) as [s|s| |s m e]; try discriminate;
    destruct (Prim2SF y) as [s'|s'| |s' m' e']; try discriminate;
    try reflexivity; intros _ _; now destruct s, s'.
Qed.

Lemma div_degenerate (x y : float) : zeroOrNaN x -> zeroOrNaN y -> x / y = nan.
Proof.
  unfold zeroOrNaN. intros Hx Hy. apply Prim2SF_inj. rewrite div_spec.
  destruct (Prim2SF x) as [s|s| |s m e]; try discriminate;
    destruct (Prim2SF y) as [s'|s'| |s' m' e']; try discriminate;
    reflexivity.
Qed.

Lemma SFmul_comm (x y : spec_float) : SF64mul x y = SF64mul y x.
Proof.
  unfold SF64mul, SFmul.
  destruct x as [sx|sx| |sx mx ex], y as [sy|sy| |sy my ey];
    try reflexivity; try (now rewrite (xorb_comm sx sy)).
  now rewrite (xorb_comm sx sy), (Pos.mul_comm mx my), (Z.add_comm ex ey).
Qed.

Lemma mul_comm (x y : float) : x * y = y * x.
Proof. apply Prim2SF_inj. rewrite !mul_spec. apply SFmul_comm. Qed.

(* A zero or a NaN is stored as it is. *)
Lemma store_degenerate (x : float) : zeroOrNaN x -> zeroOrNaN (F64.fround x).
Proof.
  unfold zeroOrNaN, F64.fround.
  now destruct (Prim2SF x) as [s|s| |s m e] eqn:E; try discriminate; rewrite E.
Qed.

Lemma dot_degenerate_r (a n : vec3.t float) :
  zeroOrNaN3 n -> zeroOrNaN (vdot a n).
Proof.
  intros (H0 & H1 & H2). unfold vdot, vec3.dot.
  change (@nadd float float64) with PrimFloat.add.
  change (@nmul float float64) with PrimFloat.mul.
  repeat apply add_degenerate; now apply mul_degenerate_r.
Qed.

Lemma vsub_diag_degenerate (a : vec3.t float) : zeroOrNaN3 (vsub a a).
Proof. repeat split; apply store_degenerate, sub_diag_degenerate. Qed.

Lemma cross_degenerate_l (a b : vec3.t float) :
  zeroOrNaN3 a -> zeroOrNaN3 (vcross a b).
Proof.
  intros (H0 & H1 & H2). unfold vcross, vec3.cross; simpl.
  repeat split; simpl; apply store_degenerate, sub_degenerate;
    solve [now apply mul_degenerate_l | now apply mul_degenerate_r].
Qed.

Lemma cross_degenerate_r (a b : vec3.t float) :
  zeroOrNaN3 b -> zeroOrNaN3 (vcross a b).
Proof.
  intros (H0 & H1 & H2). unfold vcross, vec3.cross; simpl.
  repeat split; simpl; apply store_degenerate, sub_degenerate;
    solve [now apply mul_degenerate_l | now apply mul_degenerate_r].
Qed.

Lemma cross_diag_degenerate (a : vec3.t float) : zeroOrNaN3 (vcross a a).
Proof.
  unfold vcross, vec3.cross; simpl.
  change (@nsub float float64) with PrimFloat.sub.
  change (@nmul float float64) with PrimFloat.mul.
  change (@nstore float float64) with F64.fround.
  repeat split; simpl; apply store_degenerate.
  - rewrite (mul_comm (vec3.c2 a) (vec3.c1 a)). apply sub_diag_degenerate.
  - rewrite (mul_comm (vec3.c0 a) (vec3.c2 a)). apply sub_diag_degenerate.
  - rewrite (mul_comm (vec3.c1 a) (vec3.c0 a)). apply sub_diag_degenerate.
Qed.

(* With such a normal the time is 0 / 0 or a NaN, and [time >= 0] fails. *)
Lemma plane_degenerate
    (rayStart rayDirection planePos planeNormal : vec3.t float) :
  zeroOrNaN3 planeNormal ->
  intersectRayWithPlane rayStart rayDirection planePos planeNormal = None.
Proof.
  intros Hn. rewrite intersectRayWithPlane_eq. cbv zeta.
  change (@ndiv float float64) with PrimFloat.div.
  now rewrite (@div_degenerate _ _
                 (@dot_degenerate_r _ _ Hn) (@dot_degenerate_r _ _ Hn)).
Qed.
End F64_degenerate.

Module F64_range.
Local Open Scope float_scope.

Lemma not_finite_spec (x : float) :
  notFinite x -> x = nan \/ x = infinity \/ x = neg_infinity.
Proof.
  unfold notFinite. intros H.
  rewrite <- (SF2Prim_Prim2SF x).
  destruct (Prim2SF x) as [s|s| |s m e]; try discriminate.
  - destruct s; [right; right | right; left]; reflexivity.
  - now left.
Qed.

Lemma div_by_zero_or_nan (x y : float) : zeroOrNaN y -> notFinite (x / y).
Proof.
  unfold zeroOrNaN, notFinite. rewrite div_spec.
  destruct (Prim2SF y) as [s|s| |s m e]; try discriminate;
    now destruct (Prim2SF x).
Qed.

Lemma add_not_finite (x y : float) : notFinite x -> notFinite (x + y).
Proof.
  unfold notFinite. rewrite add_spec.
  destruct (Prim2SF x) as [s|s| |s m e]; try discriminate;
    destruct (Prim2SF y) as [s'|s'| |s' m' e']; try reflexivity;
    intros _; now destruct s, s'.
Qed.
End F64_range.

Module F64_order.
Local Open Scope float_scope.

Lemma SFcompare_key (x y : spec_float) :
  SFisNaN x = false -> SFisNaN y = false ->
  SFcompare x y = Some (keyCompare (SFkey x) (SFkey y)).
Proof.
  destruct x as [sx|sx| |sx mx ex], y as [sy|sy| |sy my ey];
    try discriminate; intros _ _; simpl;
    try (now destruct sx); try (now destruct sy); try (now destruct sx, sy).
  destruct sx, sy; simpl; try reflexivity.
  all: try (now destruct (ex ?= ey)%Z).
  rewrite Z.compare_opp, (Z.compare_antisym ex ey).
  now destruct (ex ?= ey)%Z.
Qed.

Lemma is_nan_spec (x : float) : is_nan x = SFisNaN (Prim2SF x).
Proof.
  unfold is_nan. rewrite eqb_spec. unfold SFeqb.
  destruct (Prim2SF x) as [s|s| |s m e]; simpl; try reflexivity.
  - now destruct s.
  - rewrite Z.compare_refl, Pos.compare_cont_refl. now destruct s.
Qed.


Lemma keyCompare_spec (k k' : Z * Z * Z) :
  match keyCompare k k' with
  | Lt => klt k k'
  | Eq => keq k k'
  | Gt => klt k' k
  end.
Proof.
  destruct k as [[a b] c], k' as [[a' b'] c']. simpl.
  destruct (Z.compare_spec a a'); destruct (Z.compare_spec b b');
    destruct (Z.compare_spec c c'); lia.
Qed.

Ltac keys :=
  unfold klt, kle, keq in *;
  repeat match goal with
  | |- context [key ?x] =>
      let a := fresh "a" in let b := fresh "b" in let c := fresh "c" in
      destruct (key x) as [[a b] c]
  | H : context [key ?x] |- _ =>
      let a := fresh "a" in let b := fresh "b" in let c := fresh "c" in
      destruct (key x) as [[a b] c]
  end;
  try lia.

Lemma compare_key (x y : float) :
  is_nan x = false -> is_nan y = false ->
  SFcompare (Prim2SF x) (Prim2SF y) = Some (keyCompare (key x) (key y)).
Proof. rewrite !is_nan_spec. apply SFcompare_key. Qed.

Lemma compare_nan (x y : float) :
  is_nan x = true \/ is_nan y = true ->
  SFcompare (Prim2SF x) (Prim2SF y) = None.
Proof.
  rewrite !is_nan_spec.
  destruct (Prim2SF x), (Prim2SF y); simpl; intros [H|H]; try discriminate;
    reflexivity.
Qed.

Lemma ltb_iff (x y : float) :
  (x <? y) = true <->
  is_nan x = false /\ is_nan y = false /\ klt (key x) (key y).
Proof.
  rewrite ltb_spec. unfold SFltb.
  destruct (is_nan x) eqn:Hx; [|destruct (is_nan y) eqn:Hy].
  - rewrite compare_nan by (now left). split; [discriminate | now intros (? & _)].
  - rewrite compare_nan by (now right).
    split; [discriminate | now intros (_ & ? & _)].
  - rewrite (compare_key _ _ Hx Hy).
    pose proof (keyCompare_spec (key x) (key y)) as Hs.
    destruct (keyCompare (key x) (key y)); cbv iota in Hs; split; try discriminate;
      try solve [intros _; repeat split; keys]; intros (_ & _ & Hlt); exfalso; keys.
Qed.

Lemma leb_iff (x y : float) :
  (x <=? y) = true <->
  is_nan x = false /\ is_nan y = false /\ kle (key x) (key y).
Proof.
  rewrite leb_spec. unfold SFleb.
  destruct (is_nan x) eqn:Hx; [|destruct (is_nan y) eqn:Hy].
  - rewrite compare_nan by (now left). split; [discriminate | now intros (? & _)].
  - rewrite compare_nan by (now right).
    split; [discriminate | now intros (_ & ? & _)].
  - rewrite (compare_key _ _ Hx Hy).
    pose proof (keyCompare_spec (key x) (key y)) as Hs.
    destruct (keyCompare (key x) (key y)); cbv iota in Hs; split; try discriminate;
      try solve [intros _; repeat split; keys]; intros (_ & _ & Hle); exfalso; keys.
Qed.

Lemma eqb_iff (x y : float) :
  (x =? y) = true <->
  is_nan x = false /\ is_nan y = false /\ keq (key x) (key y).
Proof.
  rewrite eqb_spec. unfold SFeqb.
  destruct (is_nan x) eqn:Hx; [|destruct (is_nan y) eqn:Hy].
  - rewrite compare_nan by (now left). split; [discriminate | now intros (? & _)].
  - rewrite compare_nan by (now right).
    split; [discriminate | now intros (_ & ? & _)].
  - rewrite (compare_key _ _ Hx Hy).
    pose proof (keyCompare_spec (key x) (key y)) as Hs.
    destruct (keyCompare (key x) (key y)); cbv iota in Hs; split; try discriminate;
      try solve [intros _; repeat split; keys]; intros (_ & _ & Heq); exfalso; keys.
Qed.

Lemma ltb_false_iff (x y : float) :
  is_nan x = false -> is_nan y = false ->
  (x <? y) = false <-> kle (key y) (key x).
Proof.
  intros Hx Hy. rewrite ltb_spec. unfold SFltb.
  rewrite (compare_key _ _ Hx Hy).
  pose proof (keyCompare_spec (key x) (key y)) as Hs.
  destruct (keyCompare (key x) (key y)); cbv iota in Hs; split;
    try discriminate; try reflexivity; intros Hk; solve [keys | exfalso; keys].
Qed.

(** Math.max and Math.min of two numbers other than NaN return one of the
    two, the one of larger, respectively smaller, key. *)
Lemma max_spec (a b : float) :
  is_nan a = false -> is_nan b = false ->
  (F64.max a b = a \/ F64.max a b = b) /\
  kle (key a) (key (F64.max a b)) /\ kle (key b) (key (F64.max a b)).
Proof.
  intros Ha Hb. unfold F64.max. rewrite Ha, Hb. simpl.
  destruct (a <? b) eqn:Hab.
  - apply ltb_iff in Hab. destruct Hab as (_ & _ & Hab).
    split; [now right|]. split; keys.
  - destruct (b <? a) eqn:Hba.
    + apply ltb_iff in Hba. destruct Hba as (_ & _ & Hba).
      split; [now left|]. split; keys.
    + apply (ltb_false_iff _ _ Ha Hb) in Hab.
      apply (ltb_false_iff _ _ Hb Ha) in Hba.
      destruct (get_sign a); (split; [auto|]); split; keys.
Qed.

Lemma min_spec (a b : float) :
  is_nan a = false -> is_nan b = false ->
  (F64.min a b = a \/ F64.min a b = b) /\
  kle (key (F64.min a b)) (key a) /\ kle (key (F64.min a b)) (key b).
Proof.
  intros Ha Hb. unfold F64.min. rewrite Ha, Hb. simpl.
  destruct (a <? b) eqn:Hab.
  - apply ltb_iff in Hab. destruct Hab as (_ & _ & Hab).
    split; [now left|]. split; keys.
  - destruct (b <? a) eqn:Hba.
    + apply ltb_iff in Hba. destruct Hba as (_ & _ & Hba).
      split; [now right|]. split; keys.
    + apply (ltb_false_iff _ _ Ha Hb) in Hab.
      apply (ltb_false_iff _ _ Hb Ha) in Hba.
      destruct (get_sign a); (split; [auto|]); split; keys.
Qed.
End F64_order.

Module F64_endpoint.
Local Open Scope float_scope.

Lemma is_zero_spec (x : float) : is_zero x = SFisZero (Prim2SF x).
Proof.
  unfold is_zero. rewrite eqb_spec. change (Prim2SF 0) with (S754_zero false).
  unfold SFeqb. destruct (Prim2SF x) as [s|s| |s m e]; simpl; try reflexivity;
    now destruct s.
Qed.

Lemma is_finite_shape (x : float) :
  is_finite x = true ->
  (exists s, Prim2SF x = S754_zero s) \/
  (exists s m e, Prim2SF x = S754_finite s m e).
Proof.
  intros Hf. destruct (F64_facts.float_shape x) as [-> | s E | s E | s m e E].
  - discriminate.
  - left. now exists s.
  - rewrite (F64_facts.of_infinity x E) in Hf. now destruct s.
  - right. now exists s, m, e.
Qed.

Lemma sub_diag_finite (x : float) :
  is_finite x = true -> Prim2SF (x - x) = S754_zero false.
Proof.
  intros Hf. rewrite sub_spec.
  destruct (is_finite_shape x Hf) as [[s E] | (s & m & e & E)]; rewrite E.
  - now destruct s.
  - unfold SF64sub, SFsub. now rewrite Z.sub_diag.
Qed.

Lemma zero_mul_finite (x y : float) :
  is_zero x = true -> is_finite y = true -> is_zero (x * y) = true.
Proof.
  rewrite !is_zero_spec, mul_spec. intros Hx Hy.
  destruct (Prim2SF x) as [s| | |]; try discriminate.
  destruct (is_finite_shape y Hy) as [[s' E] | (s' & m & e & E)]; now rewrite E.
Qed.

Lemma zero_div (x d : float) :
  is_zero x = true -> is_nan d = false -> is_zero d = false ->
  is_zero (x / d) = true.
Proof.
  rewrite !is_zero_spec, F64_order.is_nan_spec, div_spec. intros Hx Hn Hd.
  destruct (Prim2SF x) as [s| | |]; try discriminate.
  now destruct (Prim2SF d).
Qed.

Lemma zero_add (x c : float) :
  is_zero x = true -> is_nan c = false -> (x + c =? c) = true.
Proof.
  rewrite is_zero_spec, F64_order.is_nan_spec, eqb_spec, add_spec.
  intros Hx Hc.
  destruct (Prim2SF x) as [s| | |]; try discriminate.
  destruct (Prim2SF c) as [s'|s'| |s' m e]; try discriminate; simpl.
  - now destruct s, s'.
  - now destruct s'.
  - unfold SFeqb. now rewrite F64_facts.SFcompare_refl_finite.
Qed.
End F64_endpoint.

Module F64_sign.
Local Open Scope float_scope.

Lemma binary_round_aux_opp (s : bool) (m e : Z) (l : location) :
  binary_round_aux prec emax (negb s) m e l =
  SFopp (binary_round_aux prec emax s m e l).
Proof.
  unfold binary_round_aux.
  destruct (shr_fexp prec emax m e l) as [mrs e'].
  destruct (shr_fexp prec emax _ e' loc_Exact) as [mrs' e''].
  destruct (shr_m mrs'); try reflexivity.
  now destruct (e'' <=? emax - prec)%Z.
Qed.

Lemma SFmul_opp_l (x y : spec_float) :
  SF64mul (SFopp x) y = SFopp (SF64mul x y).
Proof.
  unfold SF64mul, SFmul.
  destruct x as [sx|sx| |sx mx ex], y as [sy|sy| |sy my ey]; simpl;
    try reflexivity; try (now rewrite <- negb_xorb_l).
  now rewrite <- negb_xorb_l, binary_round_aux_opp.
Qed.

Lemma SFdiv_opp_l (x y : spec_float) :
  SF64div (SFopp x) y = SFopp (SF64div x y).
Proof.
  unfold SF64div, SFdiv.
  destruct x as [sx|sx| |sx mx ex], y as [sy|sy| |sy my ey]; simpl;
    try reflexivity; try (now rewrite <- negb_xorb_l).
  destruct (SFdiv_core_binary prec emax (Z.pos mx) ex (Z.pos my) ey)
    as [[mz ez] lz].
  now rewrite <- negb_xorb_l, binary_round_aux_opp.
Qed.

Lemma mul_opp_l (x y : float) : (- x) * y = - (x * y).
Proof.
  apply Prim2SF_inj. now rewrite opp_spec, !mul_spec, opp_spec, SFmul_opp_l.
Qed.

Lemma div_opp_l (x y : float) : (- x) / y = - (x / y).
Proof.
  apply Prim2SF_inj. now rewrite opp_spec, !div_spec, opp_spec, SFdiv_opp_l.
Qed.
End F64_sign.

Module F64_integer.
Local Open Scope Z_scope.

Lemma digits2_pos_size (m : positive) : digits2_pos m = Pos.size m.
Proof. induction m; simpl; congruence. Qed.

Lemma mantissa_bound (x : float) (s : bool) (m : positive) (e : Z) :
  Prim2SF x = S754_finite s m e ->
  Zpos m < 2 ^ 53 /\ (e = -1074 \/ 2 ^ 52 <= Zpos m).
Proof.
  intros E. pose proof (Prim2SF_valid x) as Hv. rewrite E in Hv.
  unfold valid_binary, bounded, canonical_mantissa in Hv.
  apply andb_true_iff in Hv. destruct Hv as [Hc _].
  apply Z.eqb_eq in Hc. rewrite digits2_pos_size in Hc.
  unfold fexp, emin, prec, emax in Hc.
  pose proof (Pos.size_gt m) as Hgt. pose proof (Pos.size_le m) as Hle.
  apply Pos2Z.pos_lt_pos in Hgt. apply Pos2Z.pos_le_pos in Hle.
  rewrite Pos2Z.inj_pow in Hgt, Hle.
  assert (Hsz : Zpos (Pos.size m) <= 53) by lia.
  split.
  - eapply Z.lt_le_trans; [exact Hgt|].
    apply Z.pow_le_mono_r; lia.
  - destruct (Z.eq_dec e (-1074)) as [He | He]; [now left | right].
    assert (Hs53 : Zpos (Pos.size m) = 53) by lia.
    assert (H2 : 2 * 2 ^ 52 <= 2 * Zpos m); [|lia].
    change (2 * 2 ^ 52) with (2 ^ 53).
    replace (2 ^ 53) with (2 ^ Zpos (Pos.size m)) by now rewrite Hs53.
    change (2 * Zpos m) with (Zpos (2 * m)). exact Hle.
Qed.

Lemma is_finite_spec (x : float) : is_finite x = SFisFinite (Prim2SF x).
Proof.
  unfold is_finite, is_infinity. rewrite F64_order.is_nan_spec, eqb_spec, abs_spec.
  change (Prim2SF infinity) with (S754_infinity false).
  now destruct (Prim2SF x) as [s|s| |s m e].
Qed.

Lemma toInt32_small (x : float) :
  is_finite x = false \/ (abs x <? 1)%float = true ->
  F64_math.toInt32 x = 0.
Proof.
  intros Hx. unfold F64_math.toInt32.
  destruct (Prim2SF x) as [s|s| |s m e] eqn:E; try reflexivity.
  destruct Hx as [Hf | Hlt].
  - rewrite is_finite_spec, E in Hf. discriminate.
  - apply F64_order.ltb_iff in Hlt. destruct Hlt as (_ & _ & Hlt).
    unfold key in Hlt. rewrite abs_spec, E in Hlt.
    change (Prim2SF 1) with (S754_finite false 4503599627370496 (-52)) in Hlt.
    simpl in Hlt.
    destruct (mantissa_bound x E) as [Hm He].
    assert (Hexp : e <= -53) by lia.
    assert (Hfloor : F64_math.magnitudeFloor m e = 0).
    { unfold F64_math.magnitudeFloor.
      rewrite <- (Z.opp_involutive e), Z.shiftl_opp_r.
      rewrite Z.shiftr_div_pow2 by lia. apply Z.div_small. split; [lia|].
      eapply Z.lt_le_trans; [exact Hm|]. apply Z.pow_le_mono_r; lia. }
    rewrite Hfloor. now destruct s.
Qed.
End F64_integer.

(** ** Degenerate planes, triangles and quads *)

Section Degenerate.
Local Open Scope float_scope.

(** X1.  On binary64, a plane normal whose three components are each 0, -0
    or NaN gives null, whatever the ray and the point of the plane: the
    time is then NaN and [time >= 0] is false. *)
Theorem intersectRayWithPlane_degenerate_normal
    (rayStart rayDirection planePos planeNormal : vec3.t float) :
  zeroOrNaN3 planeNormal ->
  intersectRayWithPlane rayStart rayDirection planePos planeNormal = None.
Proof. apply F64_degenerate.plane_degenerate. Qed.

(** The ray from [(0,0,1)] along [(0,0,-1)] and the normal [(0, NaN, -0)]. *)
Lemma intersectRayWithPlane_degenerate_normal_witness :
  intersectRayWithPlane (vec3.Make 0 0 1) (vec3.Make 0 0 (-1))
                        (vec3.Make 0 0 0) (vec3.Make 0 nan (-0)) = None.
Proof.
  apply intersectRayWithPlane_degenerate_normal.
  repeat split; reflexivity.
Defined.

(** X2.  On binary64, a triangle two of whose vertices are the same vector
    is never hit: the normal [cross(v1 - v0, v2 - v0)] has only components
    that are 0, -0 or NaN. *)
Theorem intersectRayWithTriangle_repeated_vertex
    (rayStart rayDirection v0 v1 v2 : vec3.t float) :
  v0 = v1 \/ v0 = v2 \/ v1 = v2 ->
  intersectRayWithTriangle rayStart rayDirection (v0, v1, v2) = None.
Proof.
  intros Hrep. rewrite intersectRayWithTriangle_eq. cbv zeta.
  rewrite F64_degenerate.plane_degenerate; [reflexivity|].
  destruct Hrep as [<- | [<- | <-]].
  - apply F64_degenerate.cross_degenerate_l, F64_degenerate.vsub_diag_degenerate.
  - apply F64_degenerate.cross_degenerate_r, F64_degenerate.vsub_diag_degenerate.
  - apply F64_degenerate.cross_diag_degenerate.
Qed.

(** The ray going down to the origin and the triangle
    [(0,0,0), (1,0,0), (1,0,0)]. *)
Lemma intersectRayWithTriangle_repeated_vertex_witness :
  intersectRayWithTriangle (vec3.Make 0 0 1) (vec3.Make 0 0 (-1))
    (vec3.Make 0 0 0, vec3.Make 1 0 0, vec3.Make 1 0 0) = None.
Proof.
  apply intersectRayWithTriangle_repeated_vertex.
  right; right; reflexivity.
Defined.

(** X3.  On binary64, a quad two of whose first three vertices are the same
    vector is never hit, whatever its fourth vertex. *)
Theorem intersectRayWithQuad_repeated_vertex
    (rayStart rayDirection v0 v1 v2 v3 : vec3.t float) :
  v0 = v1 \/ v0 = v2 \/ v1 = v2 ->
  intersectRayWithQuad rayStart rayDirection (v0, v1, v2, v3) = None.
Proof.
  intros Hrep. rewrite intersectRayWithQuad_eq. cbv zeta.
  rewrite F64_degenerate.plane_degenerate; [reflexivity|].
  destruct Hrep as [<- | [<- | <-]].
  - apply F64_degenerate.cross_degenerate_r, F64_degenerate.vsub_diag_degenerate.
  - apply F64_degenerate.cross_diag_degenerate.
  - apply F64_degenerate.cross_degenerate_l, F64_degenerate.vsub_diag_degenerate.
Qed.

(** The ray going down to the origin and the quad
    [(0,0,0), (0,0,0), (1,1,0), (0,1,0)]. *)
Lemma intersectRayWithQuad_repeated_vertex_witness :
  intersectRayWithQuad (vec3.Make 0 0 1) (vec3.Make 0 0 (-1))
    (vec3.Make 0 0 0, vec3.Make 0 0 0, vec3.Make 1 1 0, vec3.Make 0 1 0) = None.
Proof.
  apply intersectRayWithQuad_repeated_vertex.
  left; reflexivity.
Defined.
End Degenerate.

(** ** clamp *)

Section Clamp.
Local Open Scope float_scope.
Import F64_order.

Lemma clamp_float (num lo hi : float) :
  clamp num lo hi = F64.min (F64.max num lo) hi.
Proof. reflexivity. Qed.

(** X4.  On binary64, when [num] is not NaN and [min <= max], the result
    of [clamp(num, min, max)] lies between the bounds:
    [min <= clamp(num, min, max) <= max]. *)
Theorem clamp_within_bounds (num lo hi : float) :
  is_nan num = false -> (lo <=? hi) = true ->
  (lo <=? clamp num lo hi) = true /\ (clamp num lo hi <=? hi) = true.
Proof.
  intros Hn Hle. rewrite clamp_float.
  apply leb_iff in Hle. destruct Hle as (Hlo & Hhi & Hle).
  destruct (max_spec num lo Hn Hlo) as (Hm & Hm1 & Hm2).
  assert (Hmn : is_nan (F64.max num lo) = false)
    by now apply F64_facts.max_not_nan.
  destruct (min_spec (F64.max num lo) hi Hmn Hhi) as (Hr & Hr1 & Hr2).
  assert (Hrn : is_nan (F64.min (F64.max num lo) hi) = false)
    by now apply F64_facts.min_not_nan.
  split; apply leb_iff; repeat split; try assumption.
  destruct Hr as [-> | ->]; assumption.
Qed.

(** [clamp(5, 0, 1)]. *)
Lemma clamp_within_bounds_witness :
  (0 <=? clamp 5 0 1) = true /\ (clamp 5 0 1 <=? 1) = true.
Proof. apply clamp_within_bounds; reflexivity. Defined.

(** X5.  On binary64, a number that already lies between the bounds,
    [min <= num <= max], is returned: the result equals [num] (as numbers:
    [clamp(-0, 0, 1)] is [+0]). *)
Theorem clamp_in_range (num lo hi : float) :
  (lo <=? num) = true -> (num <=? hi) = true ->
  (clamp num lo hi =? num) = true.
Proof.
  intros H1 H2. rewrite clamp_float.
  apply leb_iff in H1. destruct H1 as (Hlo & Hn & H1).
  apply leb_iff in H2. destruct H2 as (_ & Hhi & H2).
  destruct (max_spec num lo Hn Hlo) as (Hm & Hm1 & Hm2).
  assert (Hmn : is_nan (F64.max num lo) = false)
    by now apply F64_facts.max_not_nan.
  destruct (min_spec (F64.max num lo) hi Hmn Hhi) as (Hr & Hr1 & Hr2).
  assert (Hrn : is_nan (F64.min (F64.max num lo) hi) = false)
    by now apply F64_facts.min_not_nan.
  apply eqb_iff. repeat split; try assumption.
  destruct Hr as [Hr | Hr]; rewrite Hr in *; clear Hr;
    destruct Hm as [Hm | Hm]; rewrite Hm in *; clear Hm; keys.
Qed.

(** [clamp(0.25, 0, 1)]. *)
Lemma clamp_in_range_witness : (clamp 0.25 0 1 =? 0.25) = true.
Proof. apply clamp_in_range; reflexivity. Defined.

(** X6.  On binary64, when the bounds are inverted, [max < min], and
    [num] is not NaN, the result is [max] whatever [num] is. *)
Theorem clamp_inverted_bounds (num lo hi : float) :
  is_nan num = false -> (hi <? lo) = true ->
  clamp num lo hi = hi.
Proof.
  intros Hn Hlt. rewrite clamp_float.
  apply ltb_iff in Hlt. destruct Hlt as (Hhi & Hlo & Hlt).
  destruct (max_spec num lo Hn Hlo) as (Hm & Hm1 & Hm2).
  assert (Hmn : is_nan (F64.max num lo) = false)
    by now apply F64_facts.max_not_nan.
  assert (Hgt : (hi <? F64.max num lo) = true).
  { apply ltb_iff. repeat split; try assumption. keys. }
  unfold F64.min at 1. rewrite Hmn, Hhi. simpl.
  rewrite Hgt.
  destruct (F64.max num lo <? hi) eqn:Hc; [|reflexivity].
  apply ltb_iff in Hc. destruct Hc as (_ & _ & Hc). exfalso. keys.
Qed.

(** [clamp(0.5, 1, 0)]. *)
Lemma clamp_inverted_bounds_witness : clamp 0.5 1 0 = 0.
Proof. apply clamp_inverted_bounds; reflexivity. Defined.

(** X7.  On binary64, [clamp] returns NaN as soon as one of its three
    arguments is NaN. *)
Theorem clamp_nan (num lo hi : float) :
  is_nan num || is_nan lo || is_nan hi = true -> clamp num lo hi = nan.
Proof.
  intros Hnan. rewrite clamp_float. unfold F64.min at 1.
  destruct (is_nan hi); [now rewrite orb_true_r|].
  rewrite orb_false_r in *. unfold F64.max at 1. rewrite Hnan. reflexivity.
Qed.

(** [clamp(0.5, NaN, 1)]. *)
Lemma clamp_nan_witness : clamp 0.5 nan 1 = nan.
Proof. apply clamp_nan; reflexivity. Defined.
End Clamp.

(** ** normalizeNumber and mapNumberRange *)

Section Ranges.
Local Open Scope float_scope.

(** X8.  On binary64, [normalizeNumber(min, max, val)] with [min] and
    [max] the same number divides by [max - min], which is 0 or NaN: the
    result is NaN, Infinity or -Infinity for every [val]. *)
Theorem normalizeNumber_empty_range (bound val : float) :
  let r := normalizeNumber bound bound val in
  r = nan \/ r = infinity \/ r = neg_infinity.
Proof.
  intros r. apply F64_range.not_finite_spec.
  apply F64_range.div_by_zero_or_nan, F64_degenerate.sub_diag_degenerate.
Qed.

(** X9.  On binary64, [mapNumberRange(val, inMin, inMax, outMin, outMax)]
    with [inMin] and [inMax] the same number is NaN, Infinity or -Infinity
    for every [val] and every output range. *)
Theorem mapNumberRange_empty_range (val bound outMin outMax : float) :
  let r := mapNumberRange val bound bound outMin outMax in
  r = nan \/ r = infinity \/ r = neg_infinity.
Proof.
  intros r. apply F64_range.not_finite_spec.
  apply F64_range.add_not_finite.
  apply F64_range.div_by_zero_or_nan, F64_degenerate.sub_diag_degenerate.
Qed.

(** X10.  On binary64, for a finite [min] and a difference [max - min]
    that is neither NaN nor zero, [normalizeNumber(min, max, min)] is a
    zero. *)
Theorem normalizeNumber_at_min (min max : float) :
  is_finite min = true ->
  is_nan (max - min) = false -> is_zero (max - min) = false ->
  is_zero (normalizeNumber min max min) = true.
Proof.
  intros Hf Hn Hz. apply F64_endpoint.zero_div; try assumption.
  rewrite F64_endpoint.is_zero_spec.
  change (@nsub float float64 min min) with (min - min).
  now rewrite F64_endpoint.sub_diag_finite.
Qed.

(** [normalizeNumber(2, 5, 2)]. *)
Lemma normalizeNumber_at_min_witness :
  is_zero (normalizeNumber 2 5 2) = true.
Proof. apply normalizeNumber_at_min; reflexivity. Defined.

(** X11.  On binary64, [mapNumberRange] sends [inMin] to [outMin], without
    rounding error: for a finite [inMin], a difference [inMax - inMin] that
    is neither NaN nor zero, a finite [outMax - outMin] and an [outMin]
    other than NaN, [mapNumberRange(inMin, inMin, inMax, outMin, outMax)]
    equals [outMin]. *)
Theorem mapNumberRange_at_inMin (inMin inMax outMin outMax : float) :
  is_finite inMin = true ->
  is_nan (inMax - inMin) = false -> is_zero (inMax - inMin) = false ->
  is_finite (outMax - outMin) = true ->
  is_nan outMin = false ->
  (mapNumberRange inMin inMin inMax outMin outMax =? outMin) = true.
Proof.
  intros Hf Hn Hz Hout Hmin. apply F64_endpoint.zero_add; [|assumption].
  apply F64_endpoint.zero_div; try assumption.
  apply F64_endpoint.zero_mul_finite; [|assumption].
  rewrite F64_endpoint.is_zero_spec.
  change (@nsub float float64 inMin inMin) with (inMin - inMin).
  now rewrite F64_endpoint.sub_diag_finite.
Qed.

(** [mapNumberRange(2, 2, 5, 10, 20)]. *)
Lemma mapNumberRange_at_inMin_witness :
  (mapNumberRange 2 2 5 10 20 =? 10) = true.
Proof. apply mapNumberRange_at_inMin; reflexivity. Defined.
End Ranges.

Section ExactRanges.
Local Open Scope R_scope.

(** X12.  In exact arithmetic, mapping a value from a range to another and
    back returns the value, when neither range is empty:
    [mapNumberRange(mapNumberRange(val, a, b, c, d), c, d, a, b) = val]
    for [a <> b] and [c <> d]. *)
Theorem mapNumberRange_exact_round_trip (val inMin inMax outMin outMax : R) :
  inMin <> inMax -> outMin <> outMax ->
  mapNumberRange (mapNumberRange val inMin inMax outMin outMax)
                 outMin outMax inMin inMax = val.
Proof.
  intros Hin Hout. unfold mapNumberRange. simpl. field. split; lra.
Qed.

(** The value 3 from [0, 10] to [0, 1] and back. *)
Lemma mapNumberRange_exact_round_trip_witness :
  mapNumberRange (mapNumberRange 3 0 10 0 1) 0 1 0 10 = 3.
Proof. apply mapNumberRange_exact_round_trip; lra. Defined.

(** X13.  In exact arithmetic, for [inMin <> inMax]: [mapNumberRange]
    sends [inMin] to [outMin] and [inMax] to [outMax], and it is
    [normalizeNumber] followed by the affine map of the output range:
    [mapNumberRange(val, inMin, inMax, outMin, outMax) =
     outMin + normalizeNumber(inMin, inMax, val) * (outMax - outMin)]. *)
Theorem mapNumberRange_exact_endpoints (inMin inMax outMin outMax : R) :
  inMin <> inMax ->
  mapNumberRange inMin inMin inMax outMin outMax = outMin /\
  mapNumberRange inMax inMin inMax outMin outMax = outMax /\
  (forall val, mapNumberRange val inMin inMax outMin outMax =
               outMin + normalizeNumber inMin inMax val * (outMax - outMin)).
Proof.
  intros Hin. unfold mapNumberRange, normalizeNumber. simpl.
  repeat split; intros; field; lra.
Qed.

(** The range [0, 10] mapped to [5, 7]. *)
Lemma mapNumberRange_exact_endpoints_witness :
  mapNumberRange 0 0 10 5 7 = 5 /\
  mapNumberRange 10 0 10 5 7 = 7 /\
  (forall val, mapNumberRange val 0 10 5 7 =
               5 + normalizeNumber 0 10 val * (7 - 5)).
Proof. apply mapNumberRange_exact_endpoints; lra. Defined.
End ExactRanges.

(** ** isPowerOf2 *)

Section PowerOfTwo.
Local Open Scope Z_scope.

Lemma land_double_odd (a b : Z) :
  Z.land (2 * a) (2 * b + 1) = 2 * Z.land a b.
Proof.
  apply Z.bits_inj'. intros n Hn.
  rewrite Z.land_spec.
  destruct (Z.eq_dec n 0) as [-> | Hn0].
  - now rewrite Z.testbit_even_0, Z.testbit_even_0.
  - replace n with (Z.succ (n - 1)) by lia.
    rewrite Z.testbit_even_succ, Z.testbit_odd_succ, Z.testbit_even_succ by lia.
    now rewrite Z.land_spec.
Qed.

Lemma land_pred_pos (p : positive) :
  Z.land (Zpos p) (Zpos p - 1) = 0 <-> exists k, 0 <= k /\ Zpos p = 2 ^ k.
Proof.
  induction p as [q IH | q IH | ].
  - (* odd and at least 3 *)
    replace (Z.pos q~1 - 1) with (Z.pos q~0) by lia.
    split.
    + intros Hl. exfalso.
      revert Hl. change (Z.pos q~1) with (2 * Z.pos q + 1).
      change (Z.pos q~0) with (2 * Z.pos q).
      rewrite Z.land_comm, land_double_odd, Z.land_diag. lia.
    + intros (k & Hk & Hp). exfalso.
      destruct (Z.eq_dec k 0) as [-> | Hk0]; [simpl in Hp; lia|].
      replace k with (Z.succ (k - 1)) in Hp by lia.
      rewrite Z.pow_succ_r in Hp by lia. lia.
  - replace (Z.pos q~0 - 1) with (2 * (Z.pos q - 1) + 1) by lia.
    change (Z.pos q~0) with (2 * Z.pos q).
    rewrite land_double_odd. split.
    + intros Hl. assert (Hq : Z.land (Z.pos q) (Z.pos q - 1) = 0) by lia.
      apply IH in Hq. destruct Hq as (k & Hk & Hq).
      exists (Z.succ k). split; [lia|].
      rewrite Z.pow_succ_r by lia. lia.
    + intros (k & Hk & Hp).
      destruct (Z.eq_dec k 0) as [-> | Hk0]; [simpl in Hp; lia|].
      assert (Hq : Z.land (Z.pos q) (Z.pos q - 1) = 0).
      { apply IH. exists (k - 1). split; [lia|].
        replace k with (Z.succ (k - 1)) in Hp by lia.
        rewrite Z.pow_succ_r in Hp by lia. lia. }
      lia.
  - split; [|reflexivity]. intros _. exists 0. now split.
Qed.

(** X14.  [isPowerOf2] answers true for NaN, for the infinities and for
    every number of magnitude below 1, the zeros included: the operator
    [&] reads each of them as the integer 0, and [0 & (value - 1)] is
    0. *)
Theorem isPowerOf2_below_one (value : float) :
  is_finite value = false \/ (abs value <? 1)%float = true ->
  isPowerOf2 value = true.
Proof.
  intros Hx. unfold isPowerOf2.
  now rewrite (@F64_integer.toInt32_small value Hx), Z.land_0_l.
Qed.

(** [isPowerOf2(0.75)] and [isPowerOf2(NaN)]. *)
Lemma isPowerOf2_below_one_witness :
  isPowerOf2 0.75%float = true /\ isPowerOf2 nan = true.
Proof.
  split; apply isPowerOf2_below_one; [right | left]; reflexivity.
Defined.

(** X15.  When the operator [&] reads [value] as the 32-bit integer [n]
    and [value - 1] as [n - 1], with [n <> 0], [isPowerOf2(value)] is true
    exactly when [n] is a power of 2: [n = 2^k] for some [k >= 0].  In
    particular it is false for every such negative [n]. *)
Theorem isPowerOf2_integer_part (value : float) (n : Z) :
  F64_math.toInt32 value = n ->
  F64_math.toInt32 (value - 1)%float = n - 1 ->
  n <> 0 ->
  (isPowerOf2 value = true <-> exists k, 0 <= k /\ n = 2 ^ k).
Proof.
  intros Hv Hp Hn. unfold isPowerOf2. rewrite Hv, Hp, Z.eqb_eq.
  destruct n as [|p|p]; [lia| |].
  - apply land_pred_pos.
  - split.
    + intros Hl. exfalso.
      assert (Hneg : Z.land (Z.neg p) (Z.neg p - 1) < 0)
        by (apply Z.land_neg; lia).
      lia.
    + intros (k & Hk & Hpow). exfalso.
      assert (0 < 2 ^ k) by (apply Z.pow_pos_nonneg; lia). lia.
Qed.

(** [isPowerOf2(8)] and [isPowerOf2(12.5)], read as 8 and 12. *)
Lemma isPowerOf2_integer_part_witness :
  (isPowerOf2 8%float = true <-> exists k, 0 <= k /\ 8 = 2 ^ k) /\
  (isPowerOf2 12.5%float = true <-> exists k, 0 <= k /\ 12 = 2 ^ k).
Proof.
  split; apply isPowerOf2_integer_part;
    first [reflexivity | discriminate].
Defined.
End PowerOfTwo.

(** ** triangleWave *)

Section Wave.
Local Open Scope float_scope.

(** X16.  On binary64, [triangleWave] of NaN, Infinity or -Infinity is
    NaN. *)
Theorem triangleWave_not_finite (t : float) :
  is_finite t = false -> triangleWave t = nan.
Proof.
  rewrite F64_integer.is_finite_spec. intros Hf.
  destruct (F64_facts.float_shape t) as [-> | s E | s E | s m e E].
  - reflexivity.
  - now rewrite E in Hf.
  - rewrite (F64_facts.of_infinity t E). now destruct s.
  - now rewrite E in Hf.
Qed.

(** [triangleWave(-Infinity)]. *)
Lemma triangleWave_not_finite_witness : triangleWave neg_infinity = nan.
Proof. apply triangleWave_not_finite; reflexivity. Defined.
End Wave.

Section ExactWave.
Local Open Scope R_scope.

Lemma Int_part_bounds (r : R) : IZR (Int_part r) <= r < IZR (Int_part r) + 1.
Proof.
  unfold Int_part. rewrite minus_IZR. destruct (archimed r). lra.
Qed.

Lemma Int_part_unique (r : R) (z : Z) :
  IZR z <= r < IZR z + 1 -> Int_part r = z.
Proof.
  intros Hz. pose proof (Int_part_bounds r) as Hr.
  destruct (Z.lt_trichotomy (Int_part r) z) as [Hlt | [Heq | Hgt]];
    [|exact Heq|].
  - apply Z.le_succ_l, IZR_le in Hlt. rewrite succ_IZR in Hlt. lra.
  - apply Z.le_succ_l, IZR_le in Hgt. rewrite succ_IZR in Hgt. lra.
Qed.

(* The first statement leaves [t] in [0, 2), which the second statement
   does not change. *)
Lemma triangleWave_exact_eq (t : R) :
  let r := t - IZR (Int_part (t * / 2)) * 2 in
  0 <= r < 2 /\ triangleWave t = 1 - Rabs (r - 1).
Proof.
  intros r. pose proof (Int_part_bounds (t * / 2)) as Hb.
  assert (Hr : 0 <= r < 2) by (subst r; lra).
  split; [exact Hr|]. unfold triangleWave. simpl. fold r.
  rewrite Rmax_left, Rmin_left by lra. reflexivity.
Qed.

(** X17.  In exact arithmetic, [triangleWave(t)] lies in [0, 1] for every
    [t]. *)
Theorem triangleWave_exact_range (t : R) :
  0 <= triangleWave t <= 1.
Proof.
  destruct (triangleWave_exact_eq t) as [Hr ->].
  unfold Rabs. destruct (Rcase_abs _); lra.
Qed.

(** X18.  In exact arithmetic, [triangleWave] has period 2:
    [triangleWave(t + 2k) = triangleWave(t)] for every integer [k]. *)
Theorem triangleWave_exact_period (t : R) (k : Z) :
  triangleWave (t + 2 * IZR k) = triangleWave t.
Proof.
  destruct (triangleWave_exact_eq t) as [Hr ->].
  destruct (triangleWave_exact_eq (t + 2 * IZR k)) as [_ ->].
  pose proof (Int_part_bounds (t * / 2)) as Hb.
  rewrite (@Int_part_unique ((t + 2 * IZR k) * / 2) (Int_part (t * / 2) + k)).
  - rewrite plus_IZR. f_equal. f_equal. lra.
  - rewrite plus_IZR. lra.
Qed.

(** X19.  In exact arithmetic, on one period the wave rises from 0 to 1
    and falls back: [triangleWave(t) = t] for [0 <= t <= 1] and
    [triangleWave(t) = 2 - t] for [1 <= t <= 2]. *)
Theorem triangleWave_exact_shape (t : R) :
  (0 <= t <= 1 -> triangleWave t = t) /\
  (1 <= t <= 2 -> triangleWave t = 2 - t).
Proof.
  assert (Hlow : 0 <= t < 2 -> triangleWave t = 1 - Rabs (t - 1)).
  { intros Ht. destruct (triangleWave_exact_eq t) as [_ ->].
    rewrite (@Int_part_unique (t * / 2) 0) by lra.
    f_equal. f_equal. lra. }
  assert (Htwo : triangleWave 2 = 0).
  { destruct (triangleWave_exact_eq 2) as [_ ->].
    rewrite (@Int_part_unique (2 * / 2) 1) by lra.
    unfold Rabs. destruct (Rcase_abs _); lra. }
  split; intros Ht.
  - rewrite Hlow by lra. unfold Rabs. destruct (Rcase_abs _); lra.
  - destruct (Req_dec t 2) as [-> | Hne]; [rewrite Htwo; lra|].
    rewrite Hlow by lra. unfold Rabs. destruct (Rcase_abs _); lra.
Qed.

(** [triangleWave(1/4)] and [triangleWave(3/2)]. *)
Lemma triangleWave_exact_shape_witness :
  triangleWave (1 / 4) = 1 / 4 /\ triangleWave (3 / 2) = 2 - 3 / 2.
Proof.
  split.
  - apply (proj1 (triangleWave_exact_shape (1 / 4))). lra.
  - apply (proj2 (triangleWave_exact_shape (3 / 2))). lra.
Defined.

(** X20.  In exact arithmetic, [triangleWave] is even:
    [triangleWave(-t) = triangleWave(t)]. *)
Theorem triangleWave_exact_even (t : R) :
  triangleWave (- t) = triangleWave t.
Proof.
  destruct (triangleWave_exact_eq t) as [Hr ->].
  destruct (triangleWave_exact_eq (- t)) as [Hr' ->].
  pose proof (Int_part_bounds (t * / 2)) as Hb.
  set (n := Int_part (t * / 2)) in *.
  destruct (Req_dec (t * / 2) (IZR n)) as [Heq | Hne].
  - rewrite (@Int_part_unique (- t * / 2) (- n)) by (rewrite opp_IZR; lra).
    rewrite opp_IZR. replace (- t - - IZR n * 2) with 0 by lra.
    replace (t - IZR n * 2) with 0 by lra. reflexivity.
  - rewrite (@Int_part_unique (- t * / 2) (- n - 1))
      by (rewrite minus_IZR, opp_IZR; lra).
    rewrite minus_IZR, opp_IZR.
    replace (- t - (- IZR n - 1) * 2 - 1) with (- (t - IZR n * 2 - 1)) by lra.
    now rewrite Rabs_Ropp.
Qed.
End ExactWave.

(** ** deg2Rad and rad2Deg *)

Section Angles.
Local Open Scope float_scope.

(** X21.  On binary64, both conversions are odd, without rounding error:
    [deg2Rad(-x)] is [-deg2Rad(x)] and [rad2Deg(-x)] is [-rad2Deg(x)] for
    every [x]. *)
Theorem deg2Rad_rad2Deg_odd (x : float) :
  deg2Rad (- x) = - deg2Rad x /\ rad2Deg (- x) = - rad2Deg x.
Proof.
  unfold deg2Rad, rad2Deg.
  change (@nmul float float64) with PrimFloat.mul.
  change (@ndiv float float64) with PrimFloat.div.
  now rewrite !F64_sign.mul_opp_l, !F64_sign.div_opp_l.
Qed.
End Angles.

Section ExactAngles.
Local Open Scope R_scope.

(** X22.  In exact arithmetic the two conversions are inverse to each
    other, and 180 degrees are pi radians. *)
Theorem deg2Rad_exact_round_trip (x : R) :
  rad2Deg (deg2Rad x) = x /\ deg2Rad (rad2Deg x) = x /\
  deg2Rad 180 = PI.
Proof.
  unfold deg2Rad, rad2Deg. simpl. pose proof PI_neq0.
  repeat split; field; assumption.
Qed.
End ExactAngles.

(** ** The intersection routines in exact arithmetic *)

Section ExactShapes.
Local Open Scope R_scope.

Lemma exact_ltb_false (a b : R) : Exact.ltb a b = false <-> b <= a.
Proof.
  unfold Exact.ltb. destruct (Rlt_dec a b); split; intros Hx;
    first [discriminate | lra | reflexivity].
Qed.

Lemma exact_normal_nonzero (D N : vec3.t R) :
  vdot D N <> 0 -> 0 < vdot N N.
Proof.
  destruct D as [d0 d1 d2], N as [n0 n1 n2]. vec_unfold. intros Hd.
  destruct (Req_dec n0 0) as [-> | H0].
  - destruct (Req_dec n1 0) as [-> | H1].
    + destruct (Req_dec n2 0) as [-> | H2]; [exfalso; apply Hd; ring|].
      assert (0 < n2 * n2) by nra. nra.
    + assert (0 < n1 * n1) by nra. nra.
  - assert (0 < n0 * n0) by nra. nra.
Qed.

(* The time computed for a line that meets the plane at parameter [s]. *)
Lemma exact_plane_hit (O D P N : vec3.t R) (s : R) :
  vdot D N <> 0 ->
  vdot (vsub (pointAt O D s) P) N = 0 ->
  intersectRayWithPlane O D P N =
  if Rle_dec 0 s then Some (s, vadd (vscale D s) O) else None.
Proof.
  intros Hv Hs. rewrite intersectRayWithPlane_eq. cbv zeta.
  assert (Ht : (vdot (vsub P O) N / vdot D N)%js = s).
  { destruct O, D, P, N. revert Hv Hs. unfold pointAt. vec_unfold.
    intros Hv Hs. apply Rmult_eq_reg_r with (2 := Hv).
    unfold Rdiv at 1. rewrite Rmult_assoc, Rinv_l by exact Hv. lra. }
  rewrite Ht. change (@nle R exact (lit 0) s) with (Exact.leb 0 s).
  unfold Exact.leb. now destruct (Rle_dec 0 s).
Qed.

(** X23.  In exact arithmetic, for a ray that is not parallel to the plane
    ([dot(D, N) <> 0]): when the point of parameter [s] of the line
    [O + D * s] is on the plane, the routine returns the pair of [s] and
    [D * s + O] if [s >= 0], and null if [s < 0].  No intersection in
    front of the origin is missed and none behind it is reported. *)
Theorem intersectRayWithPlane_exact_complete (O D P N : vec3.t R) (s : R) :
  vdot D N <> 0 ->
  vdot (vsub (pointAt O D s) P) N = 0 ->
  (0 <= s ->
   intersectRayWithPlane O D P N = Some (s, vadd (vscale D s) O)) /\
  (s < 0 -> intersectRayWithPlane O D P N = None).
Proof.
  intros Hv Hs. rewrite (@exact_plane_hit O D P N s Hv Hs).
  destruct (Rle_dec 0 s); split; intros; first [reflexivity | lra].
Qed.

(** The ray from [(0,0,1)] along [(0,0,-1)] meets the plane [z = 0] at
    parameter 1; along [(0,0,1)] the line meets it at parameter -1. *)
Lemma intersectRayWithPlane_exact_complete_witness :
  intersectRayWithPlane (vec3.Make 0 0 1) (vec3.Make 0 0 (-1))
                        (vec3.Make 0 0 0) (vec3.Make 0 0 1)
  = Some (1, vadd (vscale (vec3.Make 0 0 (-1)) 1) (vec3.Make 0 0 1)) /\
  intersectRayWithPlane (vec3.Make 0 0 1) (vec3.Make 0 0 1)
                        (vec3.Make 0 0 0) (vec3.Make 0 0 1)
  = None.
Proof.
  split.
  - apply (fun Hv Hs =>
             proj1 (@intersectRayWithPlane_exact_complete
                      (vec3.Make 0 0 1) (vec3.Make 0 0 (-1))
                      (vec3.Make 0 0 0) (vec3.Make 0 0 1) 1 Hv Hs));
      unfold pointAt; vec_unfold; lra.
  - apply (fun Hv Hs =>
             proj2 (@intersectRayWithPlane_exact_complete
                      (vec3.Make 0 0 1) (vec3.Make 0 0 1)
                      (vec3.Make 0 0 0) (vec3.Make 0 0 1) (-1) Hv Hs));
      unfold pointAt; vec_unfold; lra.
Defined.

Lemma exact_triangle_sides (O D v0 v1 v2 : vec3.t R) (s u v : R) :
  let N := vcross (vsub v1 v0) (vsub v2 v0) in
  pointAt O D s = combination v0 (vsub v1 v0) (vsub v2 v0) u v ->
  let p := vadd (vscale D s) O in
  vdot (vsub (pointAt O D s) v0) N = 0 /\
  edgeSide N v0 v1 p = v * vdot N N /\
  edgeSide N v1 v2 p = (1 - u - v) * vdot N N /\
  edgeSide N v2 v0 p = u * vdot N N.
Proof.
  intros N Hp p. subst N p.
  destruct O as [o0 o1 o2], D as [d0 d1 d2], v0 as [a0 a1 a2],
    v1 as [b0 b1 b2], v2 as [c0 c1 c2].
  revert Hp. unfold pointAt, combination. vec_unfold. intros Hp.
  injection Hp as H0 H1 H2.
  assert (E0 : d0 * s + o0 = a0 + ((b0 - a0) * u + (c0 - a0) * v)) by lra.
  assert (E1 : d1 * s + o1 = a1 + ((b1 - a1) * u + (c1 - a1) * v)) by lra.
  assert (E2 : d2 * s + o2 = a2 + ((b2 - a2) * u + (c2 - a2) * v)) by lra.
  rewrite ?Rplus_0_l in *.
  repeat split.
  - replace (o0 + d0 * s) with (d0 * s + o0) by ring.
    replace (o1 + d1 * s) with (d1 * s + o1) by ring.
    replace (o2 + d2 * s) with (d2 * s + o2) by ring.
    rewrite E0, E1, E2. ring.
  - rewrite E0, E1, E2. ring.
  - rewrite E0, E1, E2. ring.
  - rewrite E0, E1, E2. ring.
Qed.

(** X24.  In exact arithmetic, for a ray that is not parallel to the plane
    of the triangle: when the point of parameter [s] of the line is
    [v0 + (v1 - v0) * u + (v2 - v0) * v], the routine returns the pair of
    [s] and that point if [s >= 0], [u >= 0], [v >= 0] and [u + v <= 1],
    that is, if the point is in front of the origin and in the closed
    triangle; it returns null if one of the four conditions fails. *)
Theorem intersectRayWithTriangle_exact_barycentric
    (O D v0 v1 v2 : vec3.t R) (s u v : R) :
  vdot D (vcross (vsub v1 v0) (vsub v2 v0)) <> 0 ->
  pointAt O D s = combination v0 (vsub v1 v0) (vsub v2 v0) u v ->
  (0 <= s -> 0 <= u -> 0 <= v -> u + v <= 1 ->
   intersectRayWithTriangle O D (v0, v1, v2) = Some (s, vadd (vscale D s) O)) /\
  (s < 0 \/ u < 0 \/ v < 0 \/ 1 < u + v ->
   intersectRayWithTriangle O D (v0, v1, v2) = None).
Proof.
  intros Hv Hp.
  pose proof (@exact_normal_nonzero _ _ Hv) as Hn.
  destruct (@exact_triangle_sides O D v0 v1 v2 s u v Hp)
    as (Hplane & E1 & E2 & E3).
  rewrite intersectRayWithTriangle_eq. cbv zeta.
  rewrite (@exact_plane_hit _ _ _ _ s Hv Hplane).
  set (N := vcross (vsub v1 v0) (vsub v2 v0)) in *.
  split.
  - intros Hs Hu Hv' Huv. destruct (Rle_dec 0 s); [|lra].
    rewrite E1, E2, E3.
    change (@nlt R exact ?a (lit 0)) with (Exact.ltb a 0).
    rewrite !(proj2 (exact_ltb_false _ _)); [reflexivity | nra | nra | nra].
  - intros Hout. destruct (Rle_dec 0 s) as [Hs|]; [|reflexivity].
    rewrite E1, E2, E3.
    change (@nlt R exact ?a (lit 0)) with (Exact.ltb a 0).
    destruct Hout as [Hout | [Hout | [Hout | Hout]]]; [lra| | |].
    + rewrite (proj2 (exact_ltb_true (u * vdot N N) 0)) by nra.
      now rewrite !orb_true_r.
    + rewrite (proj2 (exact_ltb_true (v * vdot N N) 0)) by nra.
      reflexivity.
    + rewrite (proj2 (exact_ltb_true ((1 - u - v) * vdot N N) 0)) by nra.
      now rewrite !orb_true_r.
Qed.

(** The triangle [(0,0,0), (1,0,0), (0,1,0)] and rays going down from
    height 1: above [(1/4, 1/4, 0)] the ray hits, above [(1, 1, 0)] it
    misses. *)
Lemma intersectRayWithTriangle_exact_barycentric_witness :
  intersectRayWithTriangle (vec3.Make (1 / 4) (1 / 4) 1) (vec3.Make 0 0 (-1))
    (vec3.Make 0 0 0, vec3.Make 1 0 0, vec3.Make 0 1 0)
  = Some (1, vadd (vscale (vec3.Make 0 0 (-1)) 1)
                  (vec3.Make (1 / 4) (1 / 4) 1)) /\
  intersectRayWithTriangle (vec3.Make 1 1 1) (vec3.Make 0 0 (-1))
    (vec3.Make 0 0 0, vec3.Make 1 0 0, vec3.Make 0 1 0)
  = None.
Proof.
  split.
  - apply (fun Hv Hp =>
             proj1 (@intersectRayWithTriangle_exact_barycentric
                      (vec3.Make (1 / 4) (1 / 4) 1) (vec3.Make 0 0 (-1))
                      (vec3.Make 0 0 0) (vec3.Make 1 0 0) (vec3.Make 0 1 0)
                      1 (1 / 4) (1 / 4) Hv Hp));
      try lra.
    + vec_unfold; lra.
    + unfold pointAt, combination; vec_unfold; f_equal; lra.
  - apply (fun Hv Hp =>
             proj2 (@intersectRayWithTriangle_exact_barycentric
                      (vec3.Make 1 1 1) (vec3.Make 0 0 (-1))
                      (vec3.Make 0 0 0) (vec3.Make 1 0 0) (vec3.Make 0 1 0)
                      1 1 1 Hv Hp)).
    + vec_unfold; lra.
    + unfold pointAt, combination; vec_unfold; f_equal; lra.
    + right; right; right; lra.
Defined.

Lemma exact_rectangle_parameters (O D v0 v1 v2 : vec3.t R) (s a b : R) :
  let N := vcross (vsub v2 v1) (vsub v0 v1) in
  vdot (vsub v1 v0) (vsub v2 v1) = 0 ->
  0 < vdot N N ->
  pointAt O D s = combination v0 (vsub v1 v0) (vsub v2 v1) a b ->
  let p := vadd (vscale D s) O in
  vdot (vsub (pointAt O D s) v0) N = 0 /\
  edgeParameter p v0 v1 = a /\
  edgeParameter p v1 v2 = b.
Proof.
  intros N Ho Hn Hp p. subst N p.
  destruct O as [o0 o1 o2], D as [d0 d1 d2], v0 as [a0 a1 a2],
    v1 as [b0 b1 b2], v2 as [c0 c1 c2].
  revert Ho Hn Hp. unfold pointAt, combination. vec_unfold. intros Ho Hn Hp.
  injection Hp as H0 H1 H2.
  assert (E0 : d0 * s + o0 = a0 + ((b0 - a0) * a + (c0 - b0) * b)) by lra.
  assert (E1 : d1 * s + o1 = a1 + ((b1 - a1) * a + (c1 - b1) * b)) by lra.
  assert (E2 : d2 * s + o2 = a2 + ((b2 - a2) * a + (c2 - b2) * b)) by lra.
  rewrite ?Rplus_0_l in *.
  set (x0 := b0 - a0) in *. set (x1 := b1 - a1) in *. set (x2 := b2 - a2) in *.
  set (y0 := c0 - b0) in *. set (y1 := c1 - b1) in *. set (y2 := c2 - b2) in *.
  replace (a0 - b0) with (- x0) in * by (unfold x0; ring).
  replace (a1 - b1) with (- x1) in * by (unfold x1; ring).
  replace (a2 - b2) with (- x2) in * by (unfold x2; ring).
  assert (Hlag : (y1 * - x2 - y2 * - x1) * (y1 * - x2 - y2 * - x1) +
                 (y2 * - x0 - y0 * - x2) * (y2 * - x0 - y0 * - x2) +
                 (y0 * - x1 - y1 * - x0) * (y0 * - x1 - y1 * - x0) =
                 (x0 * x0 + x1 * x1 + x2 * x2) * (y0 * y0 + y1 * y1 + y2 * y2)
                 - (x0 * y0 + x1 * y1 + x2 * y2) * (x0 * y0 + x1 * y1 + x2 * y2))
    by ring.
  rewrite Ho in Hlag. rewrite Hlag in Hn.
  assert (Hx : x0 * x0 + x1 * x1 + x2 * x2 <> 0) by nra.
  assert (Hy : y0 * y0 + y1 * y1 + y2 * y2 <> 0) by nra.
  repeat split.
  - replace (o0 + d0 * s) with (d0 * s + o0) by ring.
    replace (o1 + d1 * s) with (d1 * s + o1) by ring.
    replace (o2 + d2 * s) with (d2 * s + o2) by ring.
    rewrite E0, E1, E2. ring.
  - rewrite E0, E1, E2.
    replace (a0 + (x0 * a + y0 * b) - a0) with (x0 * a + y0 * b) by ring.
    replace (a1 + (x1 * a + y1 * b) - a1) with (x1 * a + y1 * b) by ring.
    replace (a2 + (x2 * a + y2 * b) - a2) with (x2 * a + y2 * b) by ring.
    apply Rmult_eq_reg_r with (2 := Hx).
    unfold Rdiv. rewrite Rmult_assoc, Rinv_l by exact Hx.
    replace ((x0 * a + y0 * b) * x0 + (x1 * a + y1 * b) * x1 +
             (x2 * a + y2 * b) * x2)
      with (a * (x0 * x0 + x1 * x1 + x2 * x2) +
            b * (x0 * y0 + x1 * y1 + x2 * y2)) by ring.
    rewrite Ho. ring.
  - rewrite E0, E1, E2.
    replace (a0 + (x0 * a + y0 * b) - b0) with (x0 * (a - 1) + y0 * b)
      by (unfold x0; ring).
    replace (a1 + (x1 * a + y1 * b) - b1) with (x1 * (a - 1) + y1 * b)
      by (unfold x1; ring).
    replace (a2 + (x2 * a + y2 * b) - b2) with (x2 * (a - 1) + y2 * b)
      by (unfold x2; ring).
    apply Rmult_eq_reg_r with (2 := Hy).
    unfold Rdiv. rewrite Rmult_assoc, Rinv_l by exact Hy.
    replace ((x0 * (a - 1) + y0 * b) * y0 + (x1 * (a - 1) + y1 * b) * y1 +
             (x2 * (a - 1) + y2 * b) * y2)
      with ((a - 1) * (x0 * y0 + x1 * y1 + x2 * y2) +
            b * (y0 * y0 + y1 * y1 + y2 * y2)) by ring.
    rewrite Ho. ring.
Qed.

(** X25.  In exact arithmetic, for a quad whose edges [v0 -> v1] and
    [v1 -> v2] are perpendicular (the first three corners of a rectangle)
    and a ray that is not parallel to its plane: when the point of
    parameter [s] of the line is [v0 + (v1 - v0) * a + (v2 - v1) * b], the
    routine returns the pair of [s] and that point if [s >= 0],
    [0 <= a <= 1] and [0 <= b <= 1], that is, if the point is in front of
    the origin and in the closed rectangle; it returns null if one of the
    conditions fails. *)
Theorem intersectRayWithQuad_exact_rectangle
    (O D v0 v1 v2 v3 : vec3.t R) (s a b : R) :
  vdot (vsub v1 v0) (vsub v2 v1) = 0 ->
  vdot D (vcross (vsub v2 v1) (vsub v0 v1)) <> 0 ->
  pointAt O D s = combination v0 (vsub v1 v0) (vsub v2 v1) a b ->
  (0 <= s -> 0 <= a <= 1 -> 0 <= b <= 1 ->
   intersectRayWithQuad O D (v0, v1, v2, v3) = Some (s, vadd (vscale D s) O)) /\
  (s < 0 \/ a < 0 \/ 1 < a \/ b < 0 \/ 1 < b ->
   intersectRayWithQuad O D (v0, v1, v2, v3) = None).
Proof.
  intros Ho Hv Hp.
  pose proof (@exact_normal_nonzero _ _ Hv) as Hn.
  destruct (@exact_rectangle_parameters O D v0 v1 v2 s a b Ho Hn Hp)
    as (Hplane & E1 & E2).
  rewrite intersectRayWithQuad_eq. cbv zeta.
  rewrite (@exact_plane_hit _ _ _ _ s Hv Hplane).
  change (@nlt R exact ?x ?y) with (Exact.ltb x y).
  split.
  - intros Hs Ha Hb. destruct (Rle_dec 0 s); [|lra].
    rewrite E1, E2.
    rewrite !(proj2 (exact_ltb_false _ _)); [reflexivity | | | |]; simpl; lra.
  - intros Hout. destruct (Rle_dec 0 s) as [Hs|]; [|reflexivity].
    rewrite E1, E2.
    destruct Hout as [Hout | [Hout | [Hout | [Hout | Hout]]]]; [lra| | | |].
    + now rewrite (proj2 (exact_ltb_true a (lit 0))) by (simpl; lra).
    + rewrite (proj2 (exact_ltb_true (lit 1) a)) by (simpl; lra).
      now rewrite orb_true_r.
    + rewrite (proj2 (exact_ltb_true b (lit 0))) by (simpl; lra).
      now destruct (_ || _).
    + rewrite (proj2 (exact_ltb_true (lit 1) b)) by (simpl; lra).
      rewrite orb_true_r. now destruct (_ || _).
Qed.

(** The rectangle [(0,0,0), (2,0,0), (2,1,0), (0,1,0)] and rays going down
    from height 1: above [(1, 1/2, 0)] the ray hits, above [(3, 1/2, 0)]
    it misses. *)
Lemma intersectRayWithQuad_exact_rectangle_witness :
  intersectRayWithQuad (vec3.Make 1 (1 / 2) 1) (vec3.Make 0 0 (-1))
    (vec3.Make 0 0 0, vec3.Make 2 0 0, vec3.Make 2 1 0, vec3.Make 0 1 0)
  = Some (1, vadd (vscale (vec3.Make 0 0 (-1)) 1)
                  (vec3.Make 1 (1 / 2) 1)) /\
  intersectRayWithQuad (vec3.Make 3 (1 / 2) 1) (vec3.Make 0 0 (-1))
    (vec3.Make 0 0 0, vec3.Make 2 0 0, vec3.Make 2 1 0, vec3.Make 0 1 0)
  = None.
Proof.
  split.
  - apply (fun Ho Hv Hp =>
             proj1 (@intersectRayWithQuad_exact_rectangle
                      (vec3.Make 1 (1 / 2) 1) (vec3.Make 0 0 (-1))
                      (vec3.Make 0 0 0) (vec3.Make 2 0 0) (vec3.Make 2 1 0)
                      (vec3.Make 0 1 0) 1 (1 / 2) (1 / 2) Ho Hv Hp));
      try lra.
    + vec_unfold; lra.
    + vec_unfold; lra.
    + unfold pointAt, combination; vec_unfold; f_equal; lra.
  - apply (fun Ho Hv Hp =>
             proj2 (@intersectRayWithQuad_exact_rectangle
                      (vec3.Make 3 (1 / 2) 1) (vec3.Make 0 0 (-1))
                      (vec3.Make 0 0 0) (vec3.Make 2 0 0) (vec3.Make 2 1 0)
                      (vec3.Make 0 1 0) 1 (3 / 2) (1 / 2) Ho Hv Hp)).
    + vec_unfold; lra.
    + vec_unfold; lra.
    + unfold pointAt, combination; vec_unfold; f_equal; lra.
    + right; right; left; lra.
Defined.
End ExactShapes.

Section ExactSlabs.
Local Open Scope R_scope.

Lemma slab_interval (lo hi o d s : R) :
  d <> 0 -> lo <= hi ->
  (lo <= o + d * s <= hi <->
   Rmin ((lo - o) / d) ((hi - o) / d) <= s <= Rmax ((lo - o) / d) ((hi - o) / d)).
Proof.
  intros Hd Hle.
  set (a := (lo - o) / d). set (b := (hi - o) / d).
  assert (Ha : a * d = lo - o) by (unfold a; field; exact Hd).
  assert (Hb : b * d = hi - o) by (unfold b; field; exact Hd).
  unfold Rmin, Rmax.
  destruct (Rle_dec a b) as [Hab | Hab];
    (destruct (Rlt_dec 0 d) as [Hpos | Hneg]; [|assert (d < 0) by lra]);
    split; intros [H1 H2]; split; nra.
Qed.

Lemma Rmax3_le (a b c s : R) :
  Rmax (Rmax a b) c <= s <-> a <= s /\ b <= s /\ c <= s.
Proof.
  unfold Rmax. destruct (Rle_dec a b); destruct (Rle_dec _ c); lra.
Qed.

Lemma Rmin3_ge (a b c s : R) :
  s <= Rmin (Rmin a b) c <-> s <= a /\ s <= b /\ s <= c.
Proof.
  unfold Rmin. destruct (Rle_dec a b); destruct (Rle_dec _ c); lra.
Qed.

Variables (origin direction : vec3.t R) (box : BoundingBox.t R).
Hypothesis direction_nonzero :
  forall i : nat, (i < 3)%nat -> vec3.get direction i <> 0.
Hypothesis box_ordered :
  forall i : nat, (i < 3)%nat ->
    vec3.get (BoundingBox.min box) i <= vec3.get (BoundingBox.max box) i.

Lemma axis_interval (s : R) (i : nat) :
  (i < 3)%nat ->
  (vec3.get (BoundingBox.min box) i <= vec3.get (pointAt origin direction s) i
     <= vec3.get (BoundingBox.max box) i <->
   axisNear origin direction box i <= s <= axisFar origin direction box i).
Proof.
  intros Hi.
  pose proof (slab_interval (vec3.get origin i) s
                (direction_nonzero Hi) (box_ordered Hi)) as Hs.
  destruct i as [|[|[|i]]]; [| | |lia]; exact Hs.
Qed.

Lemma inside_interval (s : R) :
  insideBox box (pointAt origin direction s) <->
  slabEntry origin direction box <= s <= slabExit origin direction box.
Proof.
  unfold slabEntry, slabExit. split.
  - intros Hin.
    pose proof (proj1 (axis_interval s (i := 0) ltac:(lia)) (Hin 0%nat ltac:(lia))).
    pose proof (proj1 (axis_interval s (i := 1) ltac:(lia)) (Hin 1%nat ltac:(lia))).
    pose proof (proj1 (axis_interval s (i := 2) ltac:(lia)) (Hin 2%nat ltac:(lia))).
    split; [apply Rmax3_le | apply Rmin3_ge]; tauto.
  - intros [H1 H2]. apply Rmax3_le in H1. apply Rmin3_ge in H2.
    intros i Hi. apply (axis_interval s Hi).
    destruct i as [|[|[|i]]]; [| | |lia]; tauto.
Qed.

Lemma intersectRayWithAABB_exact_eq :
  intersectRayWithAABB origin direction box =
  if Exact.ltb (slabExit origin direction box) 0
     || Exact.ltb (slabExit origin direction box) (slabEntry origin direction box)
  then None else Some (slabEntry origin direction box).
Proof. rewrite intersectRayWithAABB_axes. reflexivity. Qed.

Lemma exact_box_miss :
  intersectRayWithAABB origin direction box = None <->
  ~ exists s, 0 <= s /\ insideBox box (pointAt origin direction s).
Proof.
  rewrite intersectRayWithAABB_exact_eq. unfold Exact.ltb.
  destruct (Rlt_dec (slabExit origin direction box) 0) as [H0 | H0];
    [|destruct (Rlt_dec (slabExit origin direction box)
                        (slabEntry origin direction box)) as [H1 | H1]]; simpl.
  - split; [|reflexivity]. intros _ (s & Hs & Hin).
    apply inside_interval in Hin. lra.
  - split; [|reflexivity]. intros _ (s & Hs & Hin).
    apply inside_interval in Hin. lra.
  - split; [discriminate|]. intros Hno. exfalso. apply Hno.
    exists (Rmax (slabEntry origin direction box) 0). split; [apply Rmax_r|].
    apply inside_interval. unfold Rmax.
    destruct (Rle_dec (slabEntry origin direction box) 0); lra.
Qed.

(** X26.  In exact arithmetic, for a direction without a zero component
    and a box with [min <= max] on each axis: the routine answers null
    exactly when no point of the ray, [origin + direction * s] with
    [s >= 0], lies in the closed box. *)
Theorem intersectRayWithAABB_exact_miss :
  intersectRayWithAABB origin direction box = None <->
  ~ exists s, 0 <= s /\ insideBox box (pointAt origin direction s).
Proof. exact exact_box_miss. Qed.

(** X27.  In exact arithmetic, for a direction without a zero component
    and a box with [min <= max] on each axis: a returned time [t] is the
    parameter at which the line of the ray enters the box.  The point at
    time [t] is in the box, no point of the line of smaller parameter is,
    and [t] is negative only when the origin itself is in the box. *)
Theorem intersectRayWithAABB_exact_entry (t : R) :
  intersectRayWithAABB origin direction box = Some t ->
  insideBox box (pointAt origin direction t) /\
  (forall s, insideBox box (pointAt origin direction s) -> t <= s) /\
  (t < 0 -> insideBox box (pointAt origin direction 0)).
Proof.
  rewrite intersectRayWithAABB_exact_eq. unfold Exact.ltb.
  destruct (Rlt_dec (slabExit origin direction box) 0) as [H0 | H0];
    [|destruct (Rlt_dec (slabExit origin direction box)
                        (slabEntry origin direction box)) as [H1 | H1]];
    simpl; try discriminate.
  intros [= <-]. split; [|split].
  - apply inside_interval. lra.
  - intros s Hin. apply inside_interval in Hin. lra.
  - intros Hneg. apply inside_interval. lra.
Qed.
End ExactSlabs.

Section ExactSlabsExamples.
Local Open Scope R_scope.

Lemma unit_box_ordered :
  forall i : nat, (i < 3)%nat ->
    vec3.get (BoundingBox.min (BoundingBox.Make (vec3.Make 0 0 0) (vec3.Make 1 1 1))) i
    <= vec3.get (BoundingBox.max (BoundingBox.Make (vec3.Make 0 0 0) (vec3.Make 1 1 1))) i.
Proof. intros i Hi. destruct i as [|[|[|i]]]; simpl; first [lra | lia]. Qed.

Lemma diagonal_nonzero :
  forall i : nat, (i < 3)%nat -> vec3.get (vec3.Make 1 1 1) i <> 0.
Proof. intros i Hi. destruct i as [|[|[|i]]]; simpl; first [lra | lia]. Qed.

(** The unit box and the ray from [(5, 0, 0)] along [(1, 1, 1)], whose
    points all have [x >= 5]. *)
Lemma intersectRayWithAABB_exact_miss_witness :
  intersectRayWithAABB (vec3.Make 5 0 0) (vec3.Make 1 1 1)
    (BoundingBox.Make (vec3.Make 0 0 0) (vec3.Make 1 1 1)) = None.
Proof.
  apply (proj2 (@intersectRayWithAABB_exact_miss
                  (vec3.Make 5 0 0) (vec3.Make 1 1 1)
                  (BoundingBox.Make (vec3.Make 0 0 0) (vec3.Make 1 1 1))
                  diagonal_nonzero unit_box_ordered)).
  intros (s & Hs & Hin).
  specialize (Hin 0%nat ltac:(lia)). revert Hin.
  unfold pointAt; vec_unfold; simpl. lra.
Defined.

(** The unit box and the ray from [(-1, -1, -1)] along [(1, 1, 1)], which
    enters the box at the corner [(0, 0, 0)]. *)
Lemma intersectRayWithAABB_exact_entry_witness :
  exists t : R,
    intersectRayWithAABB (vec3.Make (-1) (-1) (-1)) (vec3.Make 1 1 1)
      (BoundingBox.Make (vec3.Make 0 0 0) (vec3.Make 1 1 1)) = Some t /\
    insideBox (BoundingBox.Make (vec3.Make 0 0 0) (vec3.Make 1 1 1))
      (pointAt (vec3.Make (-1) (-1) (-1)) (vec3.Make 1 1 1) t).
Proof.
  destruct (intersectRayWithAABB (vec3.Make (-1) (-1) (-1)) (vec3.Make 1 1 1)
              (BoundingBox.Make (vec3.Make 0 0 0) (vec3.Make 1 1 1)))
    as [t|] eqn:E.
  - exists t. split; [reflexivity|].
    exact (proj1 (@intersectRayWithAABB_exact_entry
                    (vec3.Make (-1) (-1) (-1)) (vec3.Make 1 1 1)
                    (BoundingBox.Make (vec3.Make 0 0 0) (vec3.Make 1 1 1))
                    diagonal_nonzero unit_box_ordered t E)).
  - exfalso.
    apply (proj1 (@exact_box_miss
                    (vec3.Make (-1) (-1) (-1)) (vec3.Make 1 1 1)
                    (BoundingBox.Make (vec3.Make 0 0 0) (vec3.Make 1 1 1))
                    diagonal_nonzero unit_box_ordered)) in E.
    apply E. exists 1. split; [lra|].
    intros i Hi. destruct i as [|[|[|i]]]; [| | |lia];
      unfold pointAt; vec_unfold; simpl; lra.
Defined.
End ExactSlabsExamples.
